(** * nosugar: the daily added-sugar budget model of [src/App.tsx]

    A shallow embedding of the pure core of the application (the budget
    model, the activity-bonus engine, the consumption aggregator and the CSV
    normaliser) together with the properties its specification states.

    Modelling conventions.
    - An ECMAScript [number] is a value of [num]: a finite number, one of the
      two infinities, or NaN.  Finite numbers are exact rationals: the
      rounding of IEEE-754 doubles, overflow to an infinity and the sign of
      zero are not represented.  On whole gram counts below 2^53 the double
      arithmetic of the program is exact, so nothing is lost there.
    - An epoch-millisecond instant and a whole number of grams in the
      ledger are integers ([Z]).
    - A string is a sequence of 8-bit code units (Latin-1 text). *)

From Stdlib Require Import ZArith QArith Qround Qminmax Lia Lqa Ascii String.
From stdpp Require Import gmap strings list.

Local Open Scope Z_scope.

(** ** ECMAScript numbers *)

Module JS.

Inductive num : Type :=
| Fin (q : Q)
| PInf
| NInf
| NaN.

Definition of_Z (z : Z) : num := Fin (inject_Z z).

Definition Qlt_bool (x y : Q) : bool := negb (Qle_bool y x).

(** Equality of numbers up to the value of the fraction. *)
Definition num_eq (a b : num) : Prop :=
  match a, b with
  | Fin x, Fin y => (x == y)%Q
  | PInf, PInf | NInf, NInf | NaN, NaN => True
  | _, _ => False
  end.

Definition is_finite (a : num) : Prop :=
  match a with Fin _ => True | _ => False end.

Definition isNaN (a : num) : bool :=
  match a with NaN => true | _ => false end.

(** [!!a]: zero and NaN are falsy. *)
Definition truthy (a : num) : bool :=
  match a with
  | Fin q => negb (Qeq_bool q 0)
  | PInf | NInf => true
  | NaN => false
  end.

(** [a || b] on numbers. *)
Definition or_else (a b : num) : num := if truthy a then a else b.

Definition add (a b : num) : num :=
  match a, b with
  | NaN, _ | _, NaN => NaN
  | Fin x, Fin y => Fin (x + y)
  | PInf, NInf | NInf, PInf => NaN
  | PInf, _ | _, PInf => PInf
  | NInf, _ | _, NInf => NInf
  end.

Definition neg (a : num) : num :=
  match a with
  | Fin x => Fin (- x)
  | PInf => NInf
  | NInf => PInf
  | NaN => NaN
  end.

Definition sub (a b : num) : num := add a (neg b).

Definition signed_inf (positive : bool) : num :=
  if positive then PInf else NInf.

Definition mul (a b : num) : num :=
  match a, b with
  | NaN, _ | _, NaN => NaN
  | Fin x, Fin y => Fin (x * y)
  | Fin x, PInf | PInf, Fin x =>
      if Qeq_bool x 0 then NaN else signed_inf (Qlt_bool 0 x)
  | Fin x, NInf | NInf, Fin x =>
      if Qeq_bool x 0 then NaN else signed_inf (Qlt_bool x 0)
  | PInf, PInf | NInf, NInf => PInf
  | PInf, NInf | NInf, PInf => NInf
  end.

(** Division; a zero divisor is the positive zero. *)
Definition div (a b : num) : num :=
  match a, b with
  | NaN, _ | _, NaN => NaN
  | Fin x, Fin y =>
      if Qeq_bool y 0
      then (if Qeq_bool x 0 then NaN else signed_inf (Qlt_bool 0 x))
      else Fin (x / y)
  | Fin _, PInf | Fin _, NInf => Fin 0
  | PInf, Fin y => signed_inf (negb (Qlt_bool y 0))
  | NInf, Fin y => signed_inf (Qlt_bool y 0)
  | _, _ => NaN
  end.

(** Comparisons: every comparison with NaN is false. *)
Definition le (a b : num) : bool :=
  match a, b with
  | NaN, _ | _, NaN => false
  | Fin x, Fin y => Qle_bool x y
  | NInf, _ => true
  | _, PInf => true
  | _, _ => false
  end.

Definition lt (a b : num) : bool :=
  match a, b with
  | NaN, _ | _, NaN => false
  | Fin x, Fin y => Qlt_bool x y
  | NInf, NInf | PInf, PInf => false
  | NInf, _ => true
  | _, PInf => true
  | _, _ => false
  end.

Definition ge (a b : num) : bool := le b a.
Definition gt (a b : num) : bool := lt b a.

(** [a === b] on numbers. *)
Definition eqb (a b : num) : bool :=
  match a, b with
  | Fin x, Fin y => Qeq_bool x y
  | PInf, PInf | NInf, NInf => true
  | _, _ => false
  end.

(** [Math.min], [Math.max]: NaN if either argument is NaN. *)
Definition Math_min (a b : num) : num :=
  match a, b with
  | NaN, _ | _, NaN => NaN
  | _, _ => if le a b then a else b
  end.

Definition Math_max (a b : num) : num :=
  match a, b with
  | NaN, _ | _, NaN => NaN
  | _, _ => if le a b then b else a
  end.

(** [Math.round]: the nearest integer, halves towards +infinity. *)
Definition round_Q (q : Q) : Z := Qfloor (q + (1 # 2)).

Definition Math_round (a : num) : num :=
  match a with
  | Fin q => of_Z (round_Q q)
  | _ => a
  end.

End JS.

Import JS.

Declare Scope num_scope.
Delimit Scope num_scope with num.
Bind Scope num_scope with num.
Infix "+" := add : num_scope.
Infix "-" := sub : num_scope.
Infix "*" := mul : num_scope.
Infix "/" := div : num_scope.
Infix "<?" := lt : num_scope.
Infix "<=?" := le : num_scope.
Infix ">=?" := ge : num_scope.
Infix ">?" := gt : num_scope.
Infix "||" := or_else : num_scope.
Infix "==n" := num_eq (at level 70, no associativity).

(** ** Tiny utilities of the source *)

Definition cmToMeters (cm : num) : num := (cm / of_Z 100)%num.

Definition clamp (n lo hi : num) : num := Math_max lo (Math_min hi n).

Definition round2 (n : num) : num := (Math_round (n * of_Z 100) / of_Z 100)%num.

(** ** String helpers: the built-ins of [String.prototype] the source uses *)

Definition is_upper (c : ascii) : bool :=
  let n := N_of_ascii c in
  ((65 <=? n) && (n <=? 90) || (192 <=? n) && (n <=? 222) && negb (n =? 215))%N.

Definition lower_char (c : ascii) : ascii :=
  if is_upper c then ascii_of_N (N_of_ascii c + 32) else c.

Fixpoint toLowerCase (s : string) : string :=
  match s with
  | EmptyString => EmptyString
  | String c r => String (lower_char c) (toLowerCase r)
  end.

(** [RegExp.test] for a pattern that is a plain word: substring search. *)
Fixpoint contains (word s : string) : bool :=
  String.prefix word s ||
  match s with
  | EmptyString => false
  | String _ r => contains word r
  end.

(** [RegExp.test] for an alternation of plain words. *)
Definition test_any (words : list string) (s : string) : bool :=
  existsb (fun w => contains w s) words.

(** White space of [String.prototype.trim] among the 8-bit code units. *)
Definition is_space (c : ascii) : bool :=
  let n := N_of_ascii c in
  ((9 <=? n) && (n <=? 13) || (n =? 32) || (n =? 160))%N.

Fixpoint trimStart (s : string) : string :=
  match s with
  | String c r => if is_space c then trimStart r else s
  | EmptyString => EmptyString
  end.

Fixpoint trimEnd (s : string) : string :=
  match s with
  | EmptyString => EmptyString
  | String c r =>
      match trimEnd r with
      | EmptyString => if is_space c then EmptyString else String c EmptyString
      | r' => String c r'
      end
  end.

Definition trim (s : string) : string := trimEnd (trimStart s).

(** [!!s]: the empty string is falsy. *)
Definition nonempty (s : string) : bool :=
  match s with EmptyString => false | _ => true end.

(** ** The model *)

Inductive Sex := male | female | other | unspecified.
Inductive Activity := low | moderate | high.

(** The fields of [Onboarding] the model reads ([name], [consentAnalytics]
    and [onboarded] play no part in it).  A missing [heightCm] or [weightKg]
    is [undefined], which arithmetic turns into NaN; an absent
    [useEthnicityAdjustment] is falsy. *)
Record Onboarding := {
  sex : Sex;
  age : num;
  heightCm : num;
  weightKg : num;
  ethnicity : option string;
  activity : Activity;
  useEthnicityAdjustment : bool;
}.

Record Settings := {
  baseMale : num; baseFemale : num; baseOther : num;
  bmiUnder : num; bmiOver : num; bmiObese : num;
  pancreasYouth : num; pancreasMiddle : num; pancreasSenior : num;
  ageChild : num; ageMiddle : num; ageSenior : num;
  actHigh : num; actLow : num;
  ethSouthAsian : num; ethEastAsian : num; ethHispanic : num; ethBlack : num;
  clampMin : num; clampMax : num;
}.

(** The division is exact here.  In the doubles of the program a quotient
    that is exactly on the edge of a band can come out a hair's breadth
    beside it (160 cm and 64 kg give 24.999999999999996, not 25). *)
Definition bmiOf (heightCm weightKg : num) : num :=
  let h := cmToMeters heightCm in (weightKg / (h * h))%num.

Definition pancreasCapacityFactor (age bmi : num) (S : Settings) : num :=
  let ageF :=
    if (age <? of_Z 20)%num then pancreasYouth S
    else if (age >=? of_Z 40)%num && (age <? of_Z 60)%num then pancreasMiddle S
    else if (age >=? of_Z 60)%num then pancreasSenior S
    else of_Z 1 in
  let bmiF :=
    if (bmi >=? of_Z 25)%num && (bmi <? of_Z 30)%num then bmiOver S
    else if (bmi >=? of_Z 30)%num then bmiObese S
    else of_Z 1 in
  clamp (ageF * bmiF)%num (Fin (8 # 10)) (Fin (11 # 10)).

Definition ethnicityFactor (eth : option string) (S : Settings) : num :=
  match eth with
  | None => of_Z 1
  | Some s =>
      if negb (nonempty s) then of_Z 1 else
      let e := toLowerCase s in
      if test_any ["south asian"; "indian"; "pakistani"; "bangladesh"; "sri lanka"] e
      then ethSouthAsian S
      else if test_any ["east asian"; "chinese"; "japanese"; "korean"] e
      then ethEastAsian S
      else if test_any ["hispanic"; "latino"] e then ethHispanic S
      else if test_any ["african"; "black"] e then ethBlack S
      else of_Z 1
  end.

Definition activityFactor (level : Activity) (S : Settings) : num :=
  match level with
  | high => actHigh S
  | moderate => of_Z 1
  | low => actLow S
  end.

Record Breakdown := {
  bd_base : num; bd_bmiAdj : num; bd_pancreasAdj : num; bd_ageAdj : num;
  bd_actAdj : num; bd_ethAdj : num; bd_bmi : num;
}.

Record Estimate := { total : num; breakdown : Breakdown }.

Definition estimateDailySugarLimitG (user : Onboarding) (S : Settings) : Estimate :=
  let base :=
    match sex user with
    | male => baseMale S
    | female => baseFemale S
    | _ => baseOther S
    end in
  let _bmi := bmiOf (heightCm user) (weightKg user) in
  let bmiAdj :=
    if (_bmi <? Fin (185 # 10))%num then bmiUnder S
    else if (_bmi >=? of_Z 25)%num && (_bmi <? of_Z 30)%num then bmiOver S
    else if (_bmi >=? of_Z 30)%num then bmiObese S
    else of_Z 1 in
  let pancreasAdj := pancreasCapacityFactor (age user) _bmi S in
  let ageAdj :=
    if (age user <? of_Z 18)%num then ageChild S
    else if (age user >=? of_Z 45)%num && (age user <? of_Z 60)%num then ageMiddle S
    else if (age user >=? of_Z 60)%num then ageSenior S
    else of_Z 1 in
  let actAdj := activityFactor (activity user) S in
  let ethAdj :=
    if useEthnicityAdjustment user then ethnicityFactor (ethnicity user) S
    else of_Z 1 in
  let limit := (base * bmiAdj * pancreasAdj * ageAdj * actAdj * ethAdj)%num in
  let limit := Math_round (clamp limit (clampMin S) (clampMax S)) in
  {| total := limit;
     breakdown := {|
       bd_base := base; bd_bmiAdj := round2 bmiAdj;
       bd_pancreasAdj := round2 pancreasAdj; bd_ageAdj := round2 ageAdj;
       bd_actAdj := round2 actAdj; bd_ethAdj := round2 ethAdj;
       bd_bmi := round2 _bmi |} |}.

(** The coefficient table and the profile the application starts from. *)
Definition defaultSettings : Settings := {|
  baseMale := of_Z 36; baseFemale := of_Z 25; baseOther := of_Z 30;
  bmiUnder := Fin (105 # 100); bmiOver := Fin (97 # 100); bmiObese := Fin (93 # 100);
  pancreasYouth := Fin (105 # 100); pancreasMiddle := Fin (95 # 100);
  pancreasSenior := Fin (9 # 10);
  ageChild := Fin (92 # 100); ageMiddle := Fin (97 # 100); ageSenior := Fin (92 # 100);
  actHigh := Fin (11 # 10); actLow := Fin (95 # 100);
  ethSouthAsian := Fin (97 # 100); ethEastAsian := Fin (98 # 100);
  ethHispanic := Fin (99 # 100); ethBlack := Fin (99 # 100);
  clampMin := of_Z 18; clampMax := of_Z 42;
|}.

Definition defaultOnboarding : Onboarding := {|
  sex := unspecified; age := of_Z 30; heightCm := of_Z 175; weightKg := of_Z 75;
  ethnicity := Some "prefer-not-to-say"; activity := moderate;
  useEthnicityAdjustment := false;
|}.

(** ** Activity bonus *)

Definition activitySugarBonusKcal (kcal : num) : num :=
  if negb (truthy kcal) || (kcal <? of_Z 100)%num then of_Z 0
  else
    let grams := (kcal / of_Z 10 * Fin (5 # 10))%num in
    Math_min (Math_round grams) (of_Z 20).

Definition weeklyCappedBonus (last6 : list num) (today : num) : num :=
  let used := fold_left (fun a b => (a + (b || of_Z 0))%num) last6 (of_Z 0) in
  let remaining := Math_max (of_Z 0) (of_Z 60 - used)%num in
  Math_min today remaining.

Definition applyDailyCap (base bonus : num) : num :=
  let softCap := Math_round (base * Fin (13 # 10))%num in
  Math_min (base + bonus)%num softCap.


(** ** Dates

    A [Date] is its epoch-millisecond instant.  In this section local time
    is UTC plus a
    constant offset [tz] (a zone without daylight-saving changes), so a local
    day has 86 400 000 ms; a zone that changes its offset is modelled
    further down, in [Zoned].  The string [d.toISOString().slice(0,10)], the UTC
    calendar date "YYYY-MM-DD" of the instant, is represented by the number
    of that UTC day; for the four-digit years of the ISO format the string
    and the number determine each other. *)

Definition MS_PER_DAY : Z := 86400000.

(** An entry of the ledger: [ts] is a valid instant and [sugarG] a whole
    number of grams, as every path that creates an entry makes them. *)
Record LogEntry := {
  id : string;
  ts : Z;
  item : string;
  sugarG : Z;
  context : option string;
}.

(** [x || 0] on the result of [Map.get]: [undefined] and 0 both give 0. *)
Definition or0 (o : option Z) : Z :=
  match o with
  | Some v => if v =? 0 then 0 else v
  | None => 0
  end.

Section LocalTime.

Variable tz : Z.

(** [t.setHours(h, m, s, ms)]: the given wall-clock time on the local day
    of [t]. *)
Definition setHours (t h m s ms : Z) : Z :=
  (t + tz) / MS_PER_DAY * MS_PER_DAY + (((h * 60 + m) * 60 + s) * 1000 + ms) - tz.

Definition startOfDay (d : Z) : Z := setHours d 0 0 0 0.

(** [t.setDate(t.getDate() + days)]: the same wall-clock time [days] local
    days later. *)
Definition addDays (d days : Z) : Z := d + days * MS_PER_DAY.

Definition isoDate (d : Z) : Z := d / MS_PER_DAY.

(** The calendar date of an instant on the local clock, as a day number. *)
Definition localDate (d : Z) : Z := (d + tz) / MS_PER_DAY.

(** ** Consumption aggregator *)

Definition dayKey (t : Z) : Z := isoDate (setHours t 0 0 0 0).

(** The [Map] is a finite map from day keys to totals; the insertion order
    that a [Map] also remembers is not represented. *)
Definition rollupByDay (logs : list LogEntry) : gmap Z Z :=
  fold_left
    (fun map l =>
       let key := dayKey (ts l) in
       <[key := or0 (map !! key) + sugarG l]> map)
    logs ∅.

(** A point of the week chart.  [day] holds the key the label [key.slice(5)]
    ("MM-DD") is cut from. *)
Record SeriesPoint := {
  day : Z;
  sugar : Z;
  limit : num;
  over : bool;
}.

(** [now] is the reading of the clock, [new Date()]. *)
Definition last7DaysSeries (now : Z) (logs : list LogEntry) (dailyLimit : num)
  : list SeriesPoint :=
  let end_ := startOfDay now in
  let start := addDays end_ (-6) in
  let roll := rollupByDay logs in
  map (fun d =>
         let day := addDays start d in
         let key := isoDate day in
         let sugar := or0 (roll !! key) in
         {| day := key; sugar := sugar; limit := dailyLimit;
            over := (of_Z sugar >? dailyLimit)%num |})
      (seqZ 0 7).

(** ** The part of [App] that computes today's figures *)

Definition todayKey (now : Z) : Z := isoDate (startOfDay now).

Definition last6Keys (now : Z) : list Z :=
  map (fun i => isoDate (addDays (startOfDay now) (- (i + 1)))) (seqZ 0 6).

(** [bonusHistory[k] || 0]. *)
Definition bonus_at (bonusHistory : gmap Z num) (k : Z) : num :=
  match bonusHistory !! k with
  | Some v => (v || of_Z 0)%num
  | None => of_Z 0
  end.

Definition last6Bonuses (now : Z) (bonusHistory : gmap Z num) : list num :=
  map (bonus_at bonusHistory) (last6Keys now).

Definition weeklyRemaining (now : Z) (bonusHistory : gmap Z num) : num :=
  Math_max (of_Z 0)
    (of_Z 60 - fold_left add (last6Bonuses now bonusHistory) (of_Z 0))%num.

Definition cappedBonusToday (now : Z) (activityKcalToday : num)
    (bonusHistory : gmap Z num) : num :=
  weeklyCappedBonus (last6Bonuses now bonusHistory)
    (activitySugarBonusKcal activityKcalToday).

Definition dailyLimit (now : Z) (activityKcalToday : num)
    (bonusHistory : gmap Z num) (baseLimit : num) : num :=
  applyDailyCap baseLimit (cappedBonusToday now activityKcalToday bonusHistory).

(** The effect that persists today's bonus:
    [prev[todayKey] === capped ? prev : { ...prev, [todayKey]: capped }]. *)
Definition persistBonus (now : Z) (activityKcalToday : num)
    (prev : gmap Z num) : gmap Z num :=
  let capped := cappedBonusToday now activityKcalToday prev in
  match prev !! todayKey now with
  | Some v => if eqb v capped then prev else <[todayKey now := capped]> prev
  | None => <[todayKey now := capped]> prev
  end.

Definition todaySugar (now : Z) (logs : list LogEntry) : Z :=
  let todayStart := startOfDay now in
  let todayEnd := setHours now 23 59 59 999 in
  fold_left (fun a b => a + sugarG b)
    (List.filter (fun l => (ts l >=? todayStart) && (ts l <=? todayEnd)) logs) 0.

End LocalTime.

(** ** CSV import *)

(** [text.split(/\r?\n/)]. *)
Fixpoint split_lines (s : string) : list string :=
  match s with
  | EmptyString => [EmptyString]
  | String "010"%char r => EmptyString :: split_lines r
  | String "013"%char (String "010"%char r) => EmptyString :: split_lines r
  | String c r =>
      match split_lines r with
      | h :: t => String c h :: t
      | [] => [String c EmptyString]
      end
  end.

(** [s.split(sep)] for a one-character separator. *)
Fixpoint split_on (sep : ascii) (s : string) : list string :=
  match s with
  | EmptyString => [EmptyString]
  | String c r =>
      if Ascii.eqb c sep then EmptyString :: split_on sep r
      else match split_on sep r with
           | h :: t => String c h :: t
           | [] => [String c EmptyString]
           end
  end.

Definition is_digit (c : ascii) : bool :=
  let n := N_of_ascii c in ((48 <=? n) && (n <=? 57))%N.

(** [s.replace(/[^0-9.]/g, "")]. *)
Fixpoint keep_digits_dots (s : string) : string :=
  match s with
  | EmptyString => EmptyString
  | String c r =>
      if is_digit c || Ascii.eqb c "."%char then String c (keep_digits_dots r)
      else keep_digits_dots r
  end.

(** The value of a run of decimal digits, most significant first. *)
Fixpoint digits_value (acc : Z) (s : string) : Z :=
  match s with
  | EmptyString => acc
  | String c r => digits_value (10 * acc + (Z.of_N (N_of_ascii c) - 48)) r
  end.

(** [Number(s)] for a string of digits and dots: the empty string is 0, a
    decimal literal (digits, digits with a fraction, or a fraction alone) is
    its value, anything else is NaN. *)
Definition Number_of_digits_dots (s : string) : num :=
  match split_on "."%char s with
  | [i] => of_Z (digits_value 0 i)
  | [i; f] =>
      if negb (nonempty i) && negb (nonempty f) then NaN
      else Fin (digits_value 0 (i ++ f) # Z.to_pos (10 ^ Z.of_nat (String.length f)))
  | _ => NaN
  end.

Module Csv.

Record Row := { ts : num; item : string; sugarG : num }.

Section Parse.

(** [Date.parse], whose result on anything but the ISO format is left to the
    implementation, and the reading of the clock, [Date.now()]. *)
Variable Date_parse : string -> num.
Variable now : Z.

(** The body of the loop over the rows: [None] is [continue], [Some r] is
    [out.push(r)]. *)
Definition parseLine (line : string) : option Row :=
  let cells := split_on ","%char line in
  match cells with
  | [] | [_] => None
  | c0 :: c1 :: more =>
      let '(dateStr, item, sugarStr) :=
        match more with
        | [] => (EmptyString, c0, c1)
        | c2 :: _ => (c0, c1, c2)
        end in
      let ts := if nonempty dateStr then Date_parse dateStr else of_Z now in
      let sugarG := Number_of_digits_dots (keep_digits_dots sugarStr) in
      if negb (nonempty item) || negb (truthy sugarG) then None
      else Some {| ts := if isNaN ts then of_Z now else ts;
                   item := trim item;
                   sugarG := Math_round sugarG |}
  end.

Definition parseCsv (text : string) : list Row :=
  let lines :=
    List.filter (fun l => negb (String.length (trim l) =? 0)%nat)
      (split_lines text) in
  match lines with
  | [] => []
  | first :: rest =>
      let header := toLowerCase first in
      let hasHeader := test_any ["date"; "item"; "sugar"] header in
      let rows := if hasHeader then rest else lines in
      omap parseLine rows
  end.

End Parse.

(** The filter of [addLogs], through which imported rows reach the ledger:
    [r.item && r.sugarG > 0]. *)
Definition addLogs_keeps (r : Row) : bool :=
  nonempty (item r) && (sugarG r >? of_Z 0)%num.

End Csv.

(** ** Vocabulary of the properties *)

(** The entries of a coefficient table are numbers in the proper sense. *)
Definition finite_table (S : Settings) : Prop :=
  Forall is_finite
    [baseMale S; baseFemale S; baseOther S; bmiUnder S; bmiOver S; bmiObese S;
     pancreasYouth S; pancreasMiddle S; pancreasSenior S;
     ageChild S; ageMiddle S; ageSenior S; actHigh S; actLow S;
     ethSouthAsian S; ethEastAsian S; ethHispanic S; ethBlack S;
     clampMin S; clampMax S].

(** The same profile with other body measures. *)
Definition with_body (h w : num) (u : Onboarding) : Onboarding :=
  {| sex := sex u; age := age u; heightCm := h; weightKg := w;
     ethnicity := ethnicity u; activity := activity u;
     useEthnicityAdjustment := useEthnicityAdjustment u |}.

Fixpoint Qsum (l : list Q) : Q :=
  match l with
  | [] => 0
  | x :: r => x + Qsum r
  end.

(** One rendering of [App]: the clock and the activity energy entered. *)
Record Tick := { tick_now : Z; tick_kcal : num }.

(** The bonus history after a series of renderings, from the empty history
    the application starts with. *)
Definition run_days (tz : Z) (es : list Tick) : gmap Z num :=
  fold_left (fun h e => persistBonus tz (tick_now e) (tick_kcal e) h) es ∅.

(** The clock never runs backwards between renderings. *)
Fixpoint chronological_from (t0 : Z) (es : list Tick) : Prop :=
  match es with
  | [] => True
  | e :: r => t0 <= tick_now e /\ chronological_from (tick_now e) r
  end.

Definition chronological (es : list Tick) : Prop :=
  match es with
  | [] => True
  | e :: r => chronological_from (tick_now e) r
  end.

(** The bonuses recorded for day [d] and the six days before it, added up. *)
Definition window_total (h : gmap Z num) (d : Z) : num :=
  fold_left add (map (fun i => bonus_at h (d - i)) (seqZ 0 7)) (of_Z 0).

(** The recorded bonus of a day as a rational; days without a record count
    for nothing. *)
Definition valQ (h : gmap Z num) (k : Z) : Q :=
  match h !! k with
  | Some (Fin q) => q
  | _ => 0%Q
  end.

(** Seven consecutive days ending at [d], added up. *)
Definition window_Q (v : Z -> Q) (d : Z) : Q :=
  Qsum (map (fun i => v (d - i)) (seqZ 0 7)).

(** What the renderings maintain about the bonus history: recorded bonuses
    are finite and not negative, no day after [last] has a record, and every
    window of seven days is within 60. *)
Record hist_ok (h : gmap Z num) (last : Z) : Prop := {
  ok_vals : forall k v, h !! k = Some v -> exists q, v = Fin q /\ (0 <= q)%Q;
  ok_keys : forall k, last < k -> h !! k = None;
  ok_window : forall d, (window_Q (valQ h) d <= 60)%Q;
}.

(** The entries of the ledger that fall on the day with key [k], summed. *)
Definition day_total (tz k : Z) (logs : list LogEntry) : Z :=
  foldr Z.add 0
    (map sugarG (List.filter (fun l => dayKey tz (ts l) =? k) logs)).

(** ** Manual entry, presets and import into the ledger *)

(** The run of decimal digits a string starts with, and what follows it. *)
Fixpoint span_digits (s : string) : string * string :=
  match s with
  | EmptyString => (EmptyString, EmptyString)
  | String c r =>
      if is_digit c
      then let (d, t) := span_digits r in (String c d, t)
      else (EmptyString, s)
  end.

(** [parseFloat(s)] for a string of digits and dots: the value of the longest
    prefix that is a decimal literal, NaN when no prefix is one. *)
Definition parseFloat_digits_dots (s : string) : num :=
  let (i, r) := span_digits s in
  match r with
  | String "."%char r' =>
      let (f, _) := span_digits r' in
      if negb (nonempty i) && negb (nonempty f) then NaN
      else Fin (digits_value 0 (i ++ f) # Z.to_pos (10 ^ Z.of_nat (String.length f)))
  | _ => if nonempty i then of_Z (digits_value 0 i) else NaN
  end.

Definition parseSugar (s : string) : num :=
  let n := parseFloat_digits_dots (keep_digits_dots s) in
  if isNaN n then of_Z 0 else Math_round n.

(** The ledger of this model keeps instants and gram counts as integers.
    These two functions read a number that is whole as that integer; the
    numbers the application stores are whole. *)
Definition grams_of (n : num) : Z :=
  match n with
  | Fin q => Qfloor q
  | _ => 0
  end.

Definition instant_of (n : num) : Z :=
  match n with
  | Fin q => Qfloor q
  | _ => 0
  end.

(** [addLog] of [App]: [uid] is the identifier [uid()] returns and [now] is
    [Date.now()]; the result is the ledger handed to [setLogs], or the
    ledger as it was when the handler returns early. *)
Definition addLog (uid : string) (now : Z) (newItem newSugar : string)
    (logs : list LogEntry) : list LogEntry :=
  let grams := parseSugar newSugar in
  if negb (nonempty newItem) || (grams <=? of_Z 0)%num then logs
  else {| id := uid; ts := now; item := newItem; sugarG := grams_of grams;
          context := Some "Manual" |} :: logs.

Definition removeLog (ident : string) (logs : list LogEntry) : list LogEntry :=
  List.filter (fun l => negb (String.eqb (id l) ident)) logs.

Definition PRESETS : list (string * Z) :=
  [("Soda 12oz", 39); ("Sweetened yogurt (cup)", 18); ("Chocolate bar", 26);
   ("Sports drink 20oz", 34); ("Iced latte (sweet)", 24); ("Cookie", 12)].

Definition setQuickAdd (uid : string) (now : Z) (label : string) (grams : Z)
    (prev : list LogEntry) : list LogEntry :=
  {| id := uid; ts := now; item := label; sugarG := grams;
     context := Some "Quick" |} :: prev.

(** [addLogs] on the rows that [ImportCsv] hands over, which carry no
    [context]; [uid i] is the identifier drawn for the [i]-th row kept. *)
Definition addLogs (uid : nat -> string) (now : Z) (rows : list Csv.Row)
    (prev : list LogEntry) : list LogEntry :=
  let mapped :=
    imap (fun i r =>
            {| id := uid i;
               ts := instant_of (Csv.ts r || of_Z now)%num;
               item := Csv.item r;
               sugarG := grams_of (Math_round (Csv.sugarG r));
               context := Some "Import" |})
         (List.filter Csv.addLogs_keeps rows) in
  mapped ++ prev.

(** ** Figures on display *)

Definition weekTotal (week : list SeriesPoint) : Z :=
  fold_left (fun a b => a + sugar b) week 0.

Definition weekTarget (dailyLimit : num) : num := (dailyLimit * of_Z 7)%num.

(** [Math.max(0, dailyLimit - todaySugar)], the "Remaining" figure. *)
Definition remainingG (dailyLimit : num) (todaySugar : Z) : num :=
  Math_max (of_Z 0) (dailyLimit - of_Z todaySugar)%num.

(** [todaySugar >= dailyLimit], the condition of the alert. *)
Definition limitReached (dailyLimit : num) (todaySugar : Z) : bool :=
  (of_Z todaySugar >=? dailyLimit)%num.

Definition ProgressBar_pct (value max : num) : num :=
  Math_min (of_Z 100) (Math_round (value / max * of_Z 100)%num).

Inductive BarColor := bg_green | bg_yellow | bg_red.

Definition ProgressBar_color (pct : num) : BarColor :=
  if (pct <? of_Z 80)%num then bg_green
  else if (pct <? of_Z 100)%num then bg_yellow
  else bg_red.

(** ** Vocabulary of the properties of the ledger *)

(** What the user can do to the ledger. *)
Inductive LedgerOp :=
| ManualAdd (uid : string) (now : Z) (newItem newSugar : string)
| QuickAdd (uid : string) (now : Z) (preset : nat)
| ImportText (uid : nat -> string) (Date_parse : string -> num) (now : Z)
    (text : string)
| Remove (ident : string).

Definition apply_op (logs : list LogEntry) (op : LedgerOp) : list LogEntry :=
  match op with
  | ManualAdd uid now newItem newSugar => addLog uid now newItem newSugar logs
  | QuickAdd uid now preset =>
      match PRESETS !! preset with
      | Some (label, grams) => setQuickAdd uid now label grams logs
      | None => logs
      end
  | ImportText uid Date_parse now text =>
      addLogs uid now (Csv.parseCsv Date_parse now text) logs
  | Remove ident => removeLog ident logs
  end.

(** Every entry has a label and at least one gram. *)
Definition ledger_ok (logs : list LogEntry) : Prop :=
  Forall (fun l => nonempty (item l) = true /\ 1 <= sugarG l) logs.

(** A prior-day figure that may be missing: NaN in the array. *)
Definition prior_day (o : option Q) : num :=
  match o with
  | Some q => Fin q
  | None => NaN
  end.

(** A string of decimal digits only. *)
Fixpoint all_digits (s : string) : bool :=
  match s with
  | EmptyString => true
  | String c r => is_digit c && all_digits r
  end.

(** A string of decimal digits and dots only. *)
Fixpoint digits_dots (s : string) : bool :=
  match s with
  | EmptyString => true
  | String c r => (is_digit c || Ascii.eqb c ".") && digits_dots r
  end.

(** ** Dates in a zone that changes its offset

    The definitions of the section on dates take the offset of local time
    for constant; they are the definitions below at a zone that never
    changes ([fixed_offset], see the lemmas on it).  Here the zone changes
    its offset once, at the instant [z_switch], as a daylight-saving zone
    does in any stretch of a few months, and local time is converted as
    ECMAScript has it: LocalTime(t) = t + LocalTZA(t, true) and
    UTC(t) = t - LocalTZA(t, false), where a local time that the change
    skips or repeats is read with the offset in force before the change. *)

Record Zone := { z_before : Z; z_switch : Z; z_after : Z }.

Definition fixed_offset (tz : Z) : Zone :=
  {| z_before := tz; z_switch := 0; z_after := tz |}.

(** Europe/London in the first half of 2024: Greenwich time until
    2024-03-31T01:00:00Z, one hour ahead of it from then on. *)
Definition Europe_London_2024 : Zone :=
  {| z_before := 0; z_switch := 1711846800000; z_after := 3600000 |}.

Module Zoned.

Section InZone.

Variable zone : Zone.

Definition LocalTZA (t : Z) (isUTC : bool) : Z :=
  if isUTC
  then (if t <? z_switch zone then z_before zone else z_after zone)
  else (if t <? z_switch zone + Z.max (z_before zone) (z_after zone)
        then z_before zone else z_after zone).

Definition LocalTime (t : Z) : Z := t + LocalTZA t true.

Definition UTC (t : Z) : Z := t - LocalTZA t false.

Definition setHours (t h m s ms : Z) : Z :=
  UTC (LocalTime t / MS_PER_DAY * MS_PER_DAY
       + (((h * 60 + m) * 60 + s) * 1000 + ms)).

Definition startOfDay (d : Z) : Z := setHours d 0 0 0 0.

Definition addDays (d days : Z) : Z := UTC (LocalTime d + days * MS_PER_DAY).

Definition dayKey (t : Z) : Z := isoDate (setHours t 0 0 0 0).

Definition rollupByDay (logs : list LogEntry) : gmap Z Z :=
  fold_left
    (fun map l =>
       let key := dayKey (ts l) in
       <[key := or0 (map !! key) + sugarG l]> map)
    logs ∅.

Definition todayKey (now : Z) : Z := isoDate (startOfDay now).

Definition last6Keys (now : Z) : list Z :=
  map (fun i => isoDate (addDays (startOfDay now) (- (i + 1)))) (seqZ 0 6).

Definition last6Bonuses (now : Z) (bonusHistory : gmap Z num) : list num :=
  map (bonus_at bonusHistory) (last6Keys now).

Definition cappedBonusToday (now : Z) (activityKcalToday : num)
    (bonusHistory : gmap Z num) : num :=
  weeklyCappedBonus (last6Bonuses now bonusHistory)
    (activitySugarBonusKcal activityKcalToday).

Definition persistBonus (now : Z) (activityKcalToday : num)
    (prev : gmap Z num) : gmap Z num :=
  let capped := cappedBonusToday now activityKcalToday prev in
  match prev !! todayKey now with
  | Some v => if eqb v capped then prev else <[todayKey now := capped]> prev
  | None => <[todayKey now := capped]> prev
  end.

Definition todaySugar (now : Z) (logs : list LogEntry) : Z :=
  let todayStart := startOfDay now in
  let todayEnd := setHours now 23 59 59 999 in
  fold_left (fun a b => a + sugarG b)
    (List.filter (fun l => (ts l >=? todayStart) && (ts l <=? todayEnd)) logs) 0.

End InZone.

(** The bonus history after a series of renderings in the zone, from the
    empty history. *)
Definition run_days (zone : Zone) (es : list Tick) : gmap Z num :=
  fold_left (fun h e => persistBonus zone (tick_now e) (tick_kcal e) h) es ∅.

End Zoned.

(** A week of renderings in London across the change of 31 March 2024: one
    at 12:00 UTC on each day from Monday 25 March (day 19807 of the epoch)
    to Monday 1 April, each with 1000 kcal of activity entered. *)
Definition London_week : list Tick :=
  map (fun d => {| tick_now := d * MS_PER_DAY + 43200000;
                   tick_kcal := of_Z 1000 |})
      (seqZ 19807 8).

(** A ledger in London: 7 g on Monday 1 April 2024 at 10:00 (09:00 UTC) and
    5 g on Sunday 31 March at 13:00 (12:00 UTC), most recent first. *)
Definition London_ledger : list LogEntry :=
  [{| id := "b"; ts := 1711962000000; item := "Soda"; sugarG := 7;
      context := Some "Manual" |};
   {| id := "a"; ts := 1711886400000; item := "Cookie"; sugarG := 5;
      context := Some "Manual" |}].

(** * Properties *)

(** ** Arithmetic of [num] *)

Section NumFacts.

Local Open Scope Q_scope.

Lemma Qlt_bool_iff (x y : Q) : Qlt_bool x y = true <-> x < y.
Proof.
  unfold Qlt_bool. rewrite negb_true_iff, <- not_true_iff_false, Qle_bool_iff.
  split; [apply Qnot_le_lt | apply Qlt_not_le].
Qed.

Lemma Qlt_bool_false (x y : Q) : Qlt_bool x y = false <-> y <= x.
Proof.
  unfold Qlt_bool. rewrite negb_false_iff. apply Qle_bool_iff.
Qed.

Lemma Qle_bool_false (x y : Q) : Qle_bool x y = false <-> y < x.
Proof.
  rewrite <- not_true_iff_false, Qle_bool_iff.
  split; [apply Qnot_le_lt | apply Qlt_not_le].
Qed.

Lemma Qeq_bool_false (x y : Q) : Qeq_bool x y = false <-> ~ x == y.
Proof.
  rewrite <- not_true_iff_false, Qeq_bool_iff. tauto.
Qed.

#[global] Instance num_eq_equiv : Equivalence num_eq.
Proof.
  split.
  - intros []; simpl; auto with qarith.
  - intros [] []; simpl; auto with qarith.
  - intros [] [] []; simpl; try tauto. apply Qeq_trans.
Qed.


Lemma round_Q_mono (x y : Q) : x <= y -> (round_Q x <= round_Q y)%Z.
Proof. intros L. unfold round_Q. apply Qfloor_resp_le. lra. Qed.

Lemma round_Q_Z (z : Z) : round_Q (inject_Z z) = z.
Proof.
  unfold round_Q.
  assert (L : (z <= Qfloor (inject_Z z + (1 # 2)))%Z).
  { rewrite <- (Qfloor_Z z) at 1. apply Qfloor_resp_le. lra. }
  assert (U : (Qfloor (inject_Z z + (1 # 2)) < z + 1)%Z).
  { rewrite Zlt_Qlt. eapply Qle_lt_trans; [apply Qfloor_le|].
    rewrite inject_Z_plus. change (inject_Z 1) with 1. lra. }
  lia.
Qed.

(** Rounding thirteen tenths of a whole number, in integer arithmetic. *)
Lemma round_Q_13_10 (b : Z) :
  round_Q (inject_Z b * (13 # 10)) = ((13 * b + 5) / 10)%Z.
Proof.
  unfold round_Q, Qfloor. cbn [Qplus Qmult inject_Z Qnum Qden].
  change (Z.pos (1 * 10 * 2)) with (2 * 10)%Z.
  replace (b * 13 * 2 + 1 * Z.pos (1 * 10))%Z with (2 * (13 * b + 5))%Z by lia.
  apply Z.div_mul_cancel_l; lia.
Qed.

End NumFacts.

Section FiniteNumbers.

Lemma is_finite_Fin (a : num) : is_finite a -> exists q, a = Fin q.
Proof. destruct a; simpl; try tauto. eauto. Qed.

Lemma mul_finite (a b : num) : is_finite a -> is_finite b -> is_finite (a * b)%num.
Proof. now destruct a, b. Qed.

Lemma Math_round_finite (a : num) : is_finite a -> is_finite (Math_round a).
Proof. now destruct a. Qed.

Lemma clamp_finite (n lo hi : num) :
  is_finite n -> is_finite lo -> is_finite hi -> is_finite (clamp n lo hi).
Proof.
  destruct n, lo, hi; simpl; try tauto. intros _ _ _.
  unfold clamp, Math_min, Math_max, le.
  destruct (Qle_bool q1 q); [destruct (Qle_bool q0 q1)|destruct (Qle_bool q0 q)];
    exact I.
Qed.

(** Clamping a finite number between finite bounds [lo <= hi] lands between
    the bounds. *)
Lemma clamp_range (q lo hi : Q) :
  (lo <= hi)%Q ->
  exists r, clamp (Fin q) (Fin lo) (Fin hi) = Fin r /\ (lo <= r <= hi)%Q.
Proof.
  intros Hb. unfold clamp, Math_min, Math_max, le.
  destruct (Qle_bool hi q) eqn:E1.
  - destruct (Qle_bool lo hi) eqn:E2.
    + exists hi. split; [reflexivity | lra].
    + apply Qle_bool_false in E2. lra.
  - apply Qle_bool_false in E1.
    destruct (Qle_bool lo q) eqn:E2.
    + apply Qle_bool_iff in E2. exists q. split; [reflexivity | lra].
    + exists lo. split; [reflexivity | lra].
Qed.

End FiniteNumbers.

Lemma defaultSettings_finite : finite_table defaultSettings.
Proof. unfold finite_table. repeat constructor. Qed.

Ltac table_fields H :=
  unfold finite_table in H; rewrite !Forall_cons in H; destruct_and!.

(** ** Budget model *)

Lemma pancreas_ageF_finite (age : num) (S : Settings) :
  finite_table S ->
  is_finite (if (age <? of_Z 20)%num then pancreasYouth S
             else if (age >=? of_Z 40)%num && (age <? of_Z 60)%num
                  then pancreasMiddle S
             else if (age >=? of_Z 60)%num then pancreasSenior S
             else of_Z 1).
Proof. intros H. table_fields H. repeat case_match; simpl; auto. Qed.

Lemma pancreas_bmiF_finite (bmi : num) (S : Settings) :
  finite_table S ->
  is_finite (if (bmi >=? of_Z 25)%num && (bmi <? of_Z 30)%num then bmiOver S
             else if (bmi >=? of_Z 30)%num then bmiObese S
             else of_Z 1).
Proof. intros H. table_fields H. repeat case_match; simpl; auto. Qed.

(** C2.  Whatever the age and the BMI (NaN and the infinities included) and
    whatever the finite entries of the coefficient table, the
    pancreas-capacity factor is a finite number of the interval [0.8, 1.1]. *)
Theorem pancreasCapacityFactor_range (age bmi : num) (S : Settings) :
  finite_table S ->
  exists r : Q,
    pancreasCapacityFactor age bmi S = Fin r /\ (8 # 10 <= r <= 11 # 10)%Q.
Proof.
  intros HS. unfold pancreasCapacityFactor.
  pose proof (mul_finite _ _ (pancreas_ageF_finite age S HS)
                (pancreas_bmiF_finite bmi S HS)) as Hm.
  apply is_finite_Fin in Hm. destruct Hm as [q ->].
  apply clamp_range. lra.
Qed.

Lemma pancreasCapacityFactor_range_witness :
  finite_table defaultSettings /\
  exists r : Q,
    pancreasCapacityFactor (of_Z 65) NaN defaultSettings = Fin r /\
    (8 # 10 <= r <= 11 # 10)%Q.
Proof.
  split; [unfold finite_table; repeat constructor|].
  apply (pancreasCapacityFactor_range (of_Z 65) NaN defaultSettings).
  unfold finite_table. repeat constructor.
Defined.

(** The clamp cannot repair a coefficient that is not a number. *)
Example pancreasCapacityFactor_NaN_entry :
  let S := {| baseMale := of_Z 36; baseFemale := of_Z 25; baseOther := of_Z 30;
              bmiUnder := of_Z 1; bmiOver := of_Z 1; bmiObese := of_Z 1;
              pancreasYouth := NaN; pancreasMiddle := of_Z 1;
              pancreasSenior := of_Z 1;
              ageChild := of_Z 1; ageMiddle := of_Z 1; ageSenior := of_Z 1;
              actHigh := of_Z 1; actLow := of_Z 1;
              ethSouthAsian := of_Z 1; ethEastAsian := of_Z 1;
              ethHispanic := of_Z 1; ethBlack := of_Z 1;
              clampMin := of_Z 18; clampMax := of_Z 42 |} in
  pancreasCapacityFactor (of_Z 10) (of_Z 22) S = NaN.
Proof. reflexivity. Qed.

Lemma pancreasCapacityFactor_finite (age bmi : num) (S : Settings) :
  finite_table S -> is_finite (pancreasCapacityFactor age bmi S).
Proof.
  intros HS. unfold pancreasCapacityFactor.
  apply clamp_finite; try exact I.
  apply mul_finite; [apply pancreas_ageF_finite | apply pancreas_bmiF_finite];
    exact HS.
Qed.

Lemma ethnicityFactor_finite (eth : option string) (S : Settings) :
  finite_table S -> is_finite (ethnicityFactor eth S).
Proof.
  intros H. table_fields H. unfold ethnicityFactor.
  repeat case_match; simpl; auto.
Qed.

Lemma activityFactor_finite (level : Activity) (S : Settings) :
  finite_table S -> is_finite (activityFactor level S).
Proof. intros H. table_fields H. destruct level; simpl; auto. Qed.

(** A NaN body-mass index fails every band test. *)
Lemma bmiOf_NaN (h w : num) : h = NaN \/ w = NaN -> bmiOf h w = NaN.
Proof.
  intros [-> | ->]; unfold bmiOf, cmToMeters; [now destruct w|].
  now destruct ((h / of_Z 100) * (h / of_Z 100))%num.
Qed.

(** The limit computed under a table of finite coefficients is a finite
    number as soon as the product of the factors is. *)
Lemma total_finite_of_parts (base bmiAdj pancreasAdj ageAdj actAdj ethAdj : num)
      (S : Settings) :
  finite_table S ->
  is_finite base -> is_finite bmiAdj -> is_finite pancreasAdj ->
  is_finite ageAdj -> is_finite actAdj -> is_finite ethAdj ->
  is_finite
    (Math_round
       (clamp (base * bmiAdj * pancreasAdj * ageAdj * actAdj * ethAdj)%num
          (clampMin S) (clampMax S))).
Proof.
  intros HS; intros. table_fields HS.
  apply Math_round_finite, clamp_finite; auto.
  repeat apply mul_finite; auto.
Qed.

(** C3 (as the code has it).  When the height or the weight of the profile is
    NaN (a missing field), the body-mass index is NaN and the breakdown reports
    it as NaN, but the NaN stops there: every band comparison on it is false,
    so the BMI adjustment is 1, the pancreas factor is the one of a
    normal-range BMI, and the total is the finite limit that the same profile
    gets with a BMI of 22. *)
Theorem missing_body_measure_limit (user : Onboarding) (S : Settings) :
  finite_table S ->
  heightCm user = NaN \/ weightKg user = NaN ->
  let r := estimateDailySugarLimitG user S in
  bmiOf (heightCm user) (weightKg user) = NaN /\
  bd_bmi (breakdown r) = NaN /\
  bd_bmiAdj (breakdown r) ==n of_Z 1 /\
  bd_pancreasAdj (breakdown r) =
    round2 (pancreasCapacityFactor (age user) (of_Z 22) S) /\
  is_finite (total r) /\
  total r =
    total (estimateDailySugarLimitG (with_body (of_Z 100) (of_Z 22) user) S).
Proof.
  intros HS Hnan. pose proof (bmiOf_NaN _ _ Hnan) as Hb.
  cbv zeta. unfold estimateDailySugarLimitG. cbn [total breakdown bd_bmi
    bd_bmiAdj bd_pancreasAdj with_body heightCm weightKg sex age activity
    useEthnicityAdjustment ethnicity].
  rewrite Hb.
  change (bmiOf (of_Z 100) (of_Z 22)) with (Fin (22 / (100 / 100 * (100 / 100)))).
  change (NaN <? Fin (185 # 10))%num with false.
  change (NaN >=? of_Z 25)%num with false.
  change (NaN >=? of_Z 30)%num with false.
  change (Fin (22 / (100 / 100 * (100 / 100))) <? Fin (185 # 10))%num with false.
  change (Fin (22 / (100 / 100 * (100 / 100))) >=? of_Z 25)%num with false.
  change (Fin (22 / (100 / 100 * (100 / 100))) >=? of_Z 30)%num with false.
  cbn [andb].
  assert (Hp : pancreasCapacityFactor (age user) NaN S =
               pancreasCapacityFactor (age user) (of_Z 22) S) by reflexivity.
  assert (Hp' : pancreasCapacityFactor (age user)
                  (Fin (22 / (100 / 100 * (100 / 100)))) S =
                pancreasCapacityFactor (age user) (of_Z 22) S) by reflexivity.
  rewrite Hp, Hp'.
  repeat split.
  apply total_finite_of_parts; auto.
  - table_fields HS. destruct (sex user); auto.
  - exact I.
  - now apply pancreasCapacityFactor_finite.
  - table_fields HS. repeat case_match; simpl; auto.
  - now apply activityFactor_finite.
  - destruct (useEthnicityAdjustment user); [now apply ethnicityFactor_finite|].
    exact I.
Qed.

Lemma missing_body_measure_limit_witness :
  let user := with_body NaN (of_Z 75) defaultOnboarding in
  let r := estimateDailySugarLimitG user defaultSettings in
  bmiOf (heightCm user) (weightKg user) = NaN /\
  bd_bmi (breakdown r) = NaN /\
  bd_bmiAdj (breakdown r) ==n of_Z 1 /\
  bd_pancreasAdj (breakdown r) =
    round2 (pancreasCapacityFactor (age user) (of_Z 22) defaultSettings) /\
  is_finite (total r) /\
  total r =
    total (estimateDailySugarLimitG
             (with_body (of_Z 100) (of_Z 22) user) defaultSettings).
Proof.
  apply (missing_body_measure_limit
           (with_body NaN (of_Z 75) defaultOnboarding) defaultSettings).
  - unfold finite_table. repeat constructor.
  - left. reflexivity.
Defined.

(** C3 (as the specification states it) fails: with the height missing, the
    default profile under the default table gets the finite limit of 30 g;
    only the reported BMI is NaN.  An infinite weight does not even make the
    BMI NaN. *)
Lemma missing_height_limit_is_finite :
  let r := estimateDailySugarLimitG (with_body NaN (of_Z 75) defaultOnboarding)
             defaultSettings in
  total r = of_Z 30 /\ isNaN (total r) = false /\
  bd_bmi (breakdown r) = NaN /\
  bd_pancreasAdj (breakdown r) ==n of_Z 1 /\
  bmiOf (of_Z 175) PInf = PInf.
Proof. vm_compute. repeat split; reflexivity. Qed.


(** ** Activity bonus engine *)

Lemma Math_min_Fin (x y : Q) :
  Math_min (Fin x) (Fin y) = if Qle_bool x y then Fin x else Fin y.
Proof. reflexivity. Qed.

Lemma Math_max_Fin (x y : Q) :
  Math_max (Fin x) (Fin y) = if Qle_bool x y then Fin y else Fin x.
Proof. reflexivity. Qed.

Lemma le_refl_Fin (x : Q) : (Fin x <=? Fin x)%num = true.
Proof. simpl. apply Qle_bool_iff. lra. Qed.



(** The ceiling alone needs no assumption on the sign of the operands. *)
Lemma applyDailyCap_ceiling (b g : Q) :
  (applyDailyCap (Fin b) (Fin g) <=? Math_round (Fin b * Fin (13 # 10)))%num = true.
Proof.
  unfold applyDailyCap. cbn [mul add Math_round]. unfold of_Z.
  rewrite Math_min_Fin. destruct (Qle_bool _ _) eqn:E; [exact E|].
  apply le_refl_Fin.
Qed.

(** Below zero the ceiling lies under the base itself. *)
Example applyDailyCap_negative_base :
  applyDailyCap (of_Z (-10)) (of_Z 0) = of_Z (-13).
Proof. reflexivity. Qed.

Lemma bonus_grams_Fin (q : Q) :
  (Fin q / of_Z 10 * Fin (5 # 10))%num = Fin (q / 10 * (5 # 10)).
Proof. reflexivity. Qed.

(** The day-capped bonus is a whole number of grams between 0 and 20,
    whatever the energy reading (NaN and the infinities included). *)
Lemma activitySugarBonusKcal_range (kcal : num) :
  exists z : Z, activitySugarBonusKcal kcal = of_Z z /\ (0 <= z <= 20)%Z.
Proof.
  unfold activitySugarBonusKcal.
  destruct (negb (truthy kcal) || (kcal <? of_Z 100)%num) eqn:E.
  { exists 0%Z. split; [reflexivity | lia]. }
  apply orb_false_iff in E. destruct E as [E1 E2].
  destruct kcal as [q | | |]; try discriminate.
  - rewrite bonus_grams_Fin. cbn [Math_round]. unfold of_Z at 1 2.
    rewrite Math_min_Fin.
    simpl in E2. apply Qlt_bool_false in E2.
    destruct (Qle_bool _ _) eqn:E.
    + eexists. split; [reflexivity|]. split.
      * rewrite <- (round_Q_Z 0). apply round_Q_mono.
        change (inject_Z 100) with 100%Q in E2. change (inject_Z 0) with 0%Q.
        assert (Hq : (q / 10 * (5 # 10) == q * (1 # 20))%Q) by field.
        rewrite Hq. lra.
      * apply Qle_bool_iff in E. now rewrite <- Zle_Qle in E.
    + exists 20%Z. split; [reflexivity | lia].
  - exists 20%Z. split; [reflexivity | lia].
Qed.

(** C6.  On a finite energy reading the day-capped bonus is 0 below
    100 kcal and otherwise round(kcal / 10 * 0.5) capped at 20; for a whole
    number of kilocalories that is min((kcal + 10) / 20, 20) in integer
    arithmetic; 99 kcal gives 0 g, 100 kcal gives 5 g, 1000 kcal gives 20 g. *)
Theorem activitySugarBonusKcal_spec :
  (forall kcal : Q,
     activitySugarBonusKcal (Fin kcal) =
       if Qlt_bool kcal 100 then of_Z 0
       else of_Z (Z.min (round_Q (kcal / 10 * (5 # 10))) 20)) /\
  (forall k : Z,
     activitySugarBonusKcal (of_Z k) =
       if (k <? 100)%Z then of_Z 0 else of_Z (Z.min ((k + 10) / 20) 20)) /\
  activitySugarBonusKcal (of_Z 99) = of_Z 0 /\
  activitySugarBonusKcal (of_Z 100) = of_Z 5 /\
  activitySugarBonusKcal (of_Z 1000) = of_Z 20.
Proof.
  assert (G : forall kcal : Q,
     activitySugarBonusKcal (Fin kcal) =
       if Qlt_bool kcal 100 then of_Z 0
       else of_Z (Z.min (round_Q (kcal / 10 * (5 # 10))) 20)).
  { intros kcal. unfold activitySugarBonusKcal. cbn [truthy lt of_Z].
    change (inject_Z 100) with 100%Q.
    destruct (Qlt_bool kcal 100) eqn:E1.
    { now rewrite orb_true_r. }
    apply Qlt_bool_false in E1.
    destruct (Qeq_bool kcal 0) eqn:E0.
    { apply Qeq_bool_iff in E0. lra. }
    cbn [negb orb]. rewrite bonus_grams_Fin. cbn [Math_round]. unfold of_Z.
    rewrite Math_min_Fin.
    destruct (Qle_bool _ _) eqn:E.
    - apply Qle_bool_iff in E. rewrite <- Zle_Qle in E.
      now rewrite Z.min_l.
    - apply Qle_bool_false in E. rewrite <- Zlt_Qlt in E.
      rewrite Z.min_r by lia. reflexivity. }
  split; [exact G|]. split; [|repeat split; reflexivity].
  intros k. unfold of_Z. rewrite G.
  assert (Hlt : Qlt_bool (inject_Z k) 100 = (k <? 100)%Z).
  { destruct (k <? 100)%Z eqn:E.
    - apply Z.ltb_lt in E. apply Qlt_bool_iff.
      change 100%Q with (inject_Z 100). now rewrite <- Zlt_Qlt.
    - apply Z.ltb_ge in E. apply Qlt_bool_false.
      change 100%Q with (inject_Z 100). now rewrite <- Zle_Qle. }
  rewrite Hlt. destruct (k <? 100)%Z; [reflexivity|].
  unfold round_Q, Qfloor. cbn [Qplus Qmult Qdiv Qinv inject_Z Qnum Qden].
  change (Z.pos (1 * 10 * 10 * 2)) with (10 * 20)%Z.
  replace (k * 1 * 5 * 2 + 1 * Z.pos (1 * 10 * 10))%Z with (10 * (k + 10))%Z
    by lia.
  rewrite Z.div_mul_cancel_l by lia. reflexivity.
Qed.

Lemma or_zero_Fin (q : Q) :
  exists q', (Fin q || of_Z 0)%num = Fin q' /\ (q' == q)%Q.
Proof.
  unfold or_else. cbn [truthy]. destruct (Qeq_bool q 0) eqn:E; cbn [negb].
  - apply Qeq_bool_iff in E. exists (inject_Z 0). split; [reflexivity|].
    now rewrite E.
  - exists q. split; [reflexivity | apply Qeq_refl].
Qed.

(** The reduction that adds up the bonuses already used. *)
Lemma used_sum (l : list num) (qs : list Q) (acc : Q) :
  Forall2 (fun a q => a ==n Fin q) l qs ->
  exists u : Q,
    fold_left (fun a b => (a + (b || of_Z 0))%num) l (Fin acc) = Fin u /\
    (u == acc + Qsum qs)%Q.
Proof.
  intros H. revert acc. induction H as [|a q l qs Ha _ IH]; intros acc.
  - exists acc. split; [reflexivity | simpl; lra].
  - destruct a as [q0| | |]; simpl in Ha; try contradiction.
    destruct (or_zero_Fin q0) as (q' & E & Hq').
    cbn [fold_left]. rewrite E. cbn [add].
    destruct (IH (acc + q')%Q) as (u & Hu & Hu').
    exists u. split; [exact Hu|]. cbn [Qsum]. rewrite Hu', Hq', Ha. lra.
Qed.

Lemma Forall2_Fin (qs : list Q) :
  Forall2 (fun a q => a ==n Fin q) (map Fin qs) qs.
Proof. induction qs; constructor; [apply Qeq_refl | assumption]. Qed.

(** The weekly cap on finite figures, in rational arithmetic. *)
Lemma weeklyCappedBonus_Fin (l : list num) (qs : list Q) (t : Q) :
  Forall2 (fun a q => a ==n Fin q) l qs ->
  exists r : Q,
    weeklyCappedBonus l (Fin t) = Fin r /\
    (r == Qmin t (Qmax 0 (60 - Qsum qs)))%Q.
Proof.
  intros H. unfold weeklyCappedBonus.
  destruct (used_sum l qs (inject_Z 0) H) as (u & Hu0 & Hu).
  change (Fin (inject_Z 0)) with (of_Z 0) in Hu0. rewrite Hu0. clear Hu0.
  change (inject_Z 0) with 0%Q in Hu.
  unfold sub, of_Z. cbn [neg add]. rewrite Math_max_Fin.
  change (inject_Z 0) with 0%Q. change (inject_Z 60) with 60%Q.
  destruct (Q.max_spec 0 (60 - Qsum qs)) as [[M1 M2] | [M1 M2]];
    destruct (Qle_bool 0 (60 + - u)) eqn:E1;
    try apply Qle_bool_iff in E1; try apply Qle_bool_false in E1;
    rewrite Math_min_Fin;
    match goal with
    | |- context [Qle_bool ?a ?b] =>
        destruct (Qle_bool a b) eqn:E2;
        [apply Qle_bool_iff in E2 | apply Qle_bool_false in E2]
    end;
    eexists; (split; [reflexivity|]); rewrite M2;
    destruct (Q.min_spec t (60 - Qsum qs)) as [[N1 N2] | [N1 N2]];
    destruct (Q.min_spec t 0) as [[P1 P2] | [P1 P2]];
    rewrite ?N2, ?P2; lra.
Qed.

(** C4.  For six prior-day bonuses and a day-capped bonus [t], all finite,
    the granted bonus is min(t, max(0, 60 - sum of the six)); when the six
    sum to 58 g and [t] is 20 g, it is 2 g. *)
Theorem weeklyCappedBonus_spec (last6 : list Q) (t : Q) :
  length last6 = 6%nat ->
  (exists r : Q,
     weeklyCappedBonus (map Fin last6) (Fin t) = Fin r /\
     (r == Qmin t (Qmax 0 (60 - Qsum last6)))%Q) /\
  ((Qsum last6 == 58)%Q -> (t == 20)%Q ->
   weeklyCappedBonus (map Fin last6) (Fin t) ==n of_Z 2).
Proof.
  intros _.
  destruct (weeklyCappedBonus_Fin _ _ t (Forall2_Fin last6)) as (r & Hr & Hr').
  split; [now exists r|].
  intros Hs Ht. rewrite Hr. simpl. rewrite Hr', Hs, Ht. reflexivity.
Qed.

Lemma weeklyCappedBonus_spec_witness :
  (exists r : Q,
     weeklyCappedBonus (map Fin [10; 10; 10; 10; 10; 8]%Q) (Fin 20) = Fin r /\
     (r == Qmin 20 (Qmax 0 (60 - Qsum [10; 10; 10; 10; 10; 8])))%Q) /\
  weeklyCappedBonus (map Fin [10; 10; 10; 10; 10; 8]%Q) (Fin 20) ==n of_Z 2.
Proof.
  destruct (weeklyCappedBonus_spec [10; 10; 10; 10; 10; 8]%Q 20 eq_refl)
    as [H1 H2].
  split; [exact H1 | apply H2; reflexivity].
Defined.

(** *** The weekly window *)

Lemma seqZ_0_7 : seqZ 0 7 = [0; 1; 2; 3; 4; 5; 6].
Proof. reflexivity. Qed.

Lemma seqZ_0_6 : seqZ 0 6 = [0; 1; 2; 3; 4; 5].
Proof. reflexivity. Qed.

Ltac canon_keys T :=
  repeat match goal with
  | |- context [(T + ?a - ?b)%Z] =>
      let c := eval compute in (a - b)%Z in
      replace (T + a - b)%Z with (T + c)%Z by lia
  | |- context [(T - ?b)%Z] =>
      let c := eval compute in (- b)%Z in
      replace (T - b)%Z with (T + c)%Z by lia
  end.

(** Recording [r] for day [T], when no later day has a record and [r] fits
    the headroom left by the six days before [T], keeps every window of
    seven days within 60. *)
Lemma window_after_record (v v' : Z -> Q) (T : Z) (r : Q) :
  (forall k, k <> T -> v' k = v k) ->
  v' T = r ->
  (forall k, T < k -> v k = 0%Q) ->
  (forall k, (0 <= v k)%Q) ->
  (forall d, (window_Q v d <= 60)%Q) ->
  (0 <= r)%Q ->
  (r <= Qmax 0 (60 - Qsum (map (fun i => v (T - (i + 1))%Z) (seqZ 0 6))))%Q ->
  forall d, (window_Q v' d <= 60)%Q.
Proof.
  intros V1 V2 V3 V4 V5 Hr0 Hr d.
  assert (X0 : v' (T + 0) = r) by (rewrite Z.add_0_r; exact V2).
  pose proof (V5 (T - 1)) as Hprev. pose proof (V5 d) as Hd.
  unfold window_Q in *. rewrite seqZ_0_7 in *. rewrite seqZ_0_6 in Hr.
  cbn [map Qsum] in *.
  pose proof (V4 (T + -1)). pose proof (V4 (T + -2)). pose proof (V4 (T + -3)).
  pose proof (V4 (T + -4)). pose proof (V4 (T + -5)). pose proof (V4 (T + -6)).
  pose proof (V4 (T + -7)).
  revert Hr Hprev. cbn [Z.add Z.sub Z.opp Pos.add Pos.succ]. 
  replace (T - 1 - 0) with (T + -1) by lia.
  replace (T - 1 - 1) with (T + -2) by lia.
  replace (T - 1 - 2) with (T + -3) by lia.
  replace (T - 1 - 3) with (T + -4) by lia.
  replace (T - 1 - 4) with (T + -5) by lia.
  replace (T - 1 - 5) with (T + -6) by lia.
  replace (T - 1 - 6) with (T + -7) by lia.
  canon_keys T. intros Hr Hprev.
  assert (Hsum : (r + (v (T + -1)%Z + (v (T + -2)%Z + (v (T + -3)%Z + (v (T + -4)%Z +
                        (v (T + -5)%Z + (v (T + -6)%Z + 0)))))) <= 60)%Q).
  { destruct (Q.max_spec 0
      (60 - (v (T + -1)%Z + (v (T + -2)%Z + (v (T + -3)%Z + (v (T + -4)%Z +
            (v (T + -5)%Z + (v (T + -6)%Z + 0))))))))
      as [[M1 M2] | [M1 M2]]; rewrite M2 in Hr; lra. }
  clear Hr.
  destruct (Z_lt_le_dec d T) as [Hlt | Hge].
  { rewrite !V1 by lia. exact Hd. }
  destruct (Z_lt_le_dec (T + 6) d) as [Hgt | Hle].
  { rewrite !V1 by lia. exact Hd. }
  assert (Hj : d = T + 0 \/ d = T + 1 \/ d = T + 2 \/ d = T + 3 \/
               d = T + 4 \/ d = T + 5 \/ d = T + 6) by lia.
  clear Hd.
  destruct Hj as [-> | [-> | [-> | [-> | [-> | [-> | ->]]]]]];
    canon_keys T; rewrite X0;
    repeat match goal with
    | |- context [v' (T + ?c)] => rewrite (V1 (T + c)) by lia
    end;
    repeat match goal with
    | |- context [v (T + Z.pos ?c)] => rewrite (V3 (T + Z.pos c)) by lia
    end;
    lra.
Qed.

Lemma add_sum (l : list num) (qs : list Q) (acc : Q) :
  Forall2 (fun a q => a ==n Fin q) l qs ->
  exists u : Q, fold_left add l (Fin acc) = Fin u /\ (u == acc + Qsum qs)%Q.
Proof.
  intros H. revert acc. induction H as [|a q l qs Ha _ IH]; intros acc.
  - exists acc. split; [reflexivity | simpl; lra].
  - destruct a as [q0| | |]; simpl in Ha; try contradiction.
    cbn [fold_left add].
    destruct (IH (acc + q0)%Q) as (u & Hu & Hu').
    exists u. split; [exact Hu|]. cbn [Qsum]. rewrite Hu', Ha. lra.
Qed.

Section WeeklyWindow.

Variable tz : Z.

Lemma dayKey_eq (t : Z) :
  dayKey tz t = (t + tz) / MS_PER_DAY + (- tz) / MS_PER_DAY.
Proof.
  unfold dayKey, isoDate, setHours, MS_PER_DAY.
  replace ((t + tz) / 86400000 * 86400000 +
           (((0 * 60 + 0) * 60 + 0) * 1000 + 0) - tz)
    with ((t + tz) / 86400000 * 86400000 + - tz) by lia.
  rewrite Z.div_add_l by lia. reflexivity.
Qed.

Lemma todayKey_dayKey (now : Z) : todayKey tz now = dayKey tz now.
Proof. reflexivity. Qed.

Lemma dayKey_mono (t t' : Z) : t <= t' -> dayKey tz t <= dayKey tz t'.
Proof.
  intros H. rewrite !dayKey_eq. apply Z.add_le_mono_r.
  apply Z.div_le_mono; unfold MS_PER_DAY; lia.
Qed.

(** The keys of the six days before today are the six numbers below
    today's key. *)
Lemma offset_key (now n : Z) :
  isoDate (addDays (startOfDay tz now) n) = todayKey tz now + n.
Proof.
  unfold isoDate, addDays, todayKey, isoDate.
  rewrite Z.div_add by (unfold MS_PER_DAY; lia). reflexivity.
Qed.

Lemma last6Keys_eq (now : Z) :
  last6Keys tz now = map (fun i => todayKey tz now - (i + 1)) (seqZ 0 6).
Proof.
  unfold last6Keys. apply map_ext. intros i. rewrite offset_key. lia.
Qed.

Lemma bonus_at_valQ (h : gmap Z num) (k : Z) :
  (forall k v, h !! k = Some v -> exists q, v = Fin q /\ (0 <= q)%Q) ->
  bonus_at h k ==n Fin (valQ h k).
Proof.
  intros Hv. unfold bonus_at, valQ. destruct (h !! k) as [v|] eqn:E.
  - destruct (Hv k v E) as (q & -> & _).
    destruct (or_zero_Fin q) as (q' & -> & Hq). exact Hq.
  - simpl. reflexivity.
Qed.

Lemma valQ_nonneg (h : gmap Z num) (k : Z) :
  (forall k v, h !! k = Some v -> exists q, v = Fin q /\ (0 <= q)%Q) ->
  (0 <= valQ h k)%Q.
Proof.
  intros Hv. unfold valQ. destruct (h !! k) as [v|] eqn:E; [|lra].
  destruct (Hv k v E) as (q & -> & Hq). exact Hq.
Qed.

Lemma window_total_Q (h : gmap Z num) (d : Z) :
  (forall k v, h !! k = Some v -> exists q, v = Fin q /\ (0 <= q)%Q) ->
  exists u : Q, window_total h d = Fin u /\ (u == window_Q (valQ h) d)%Q.
Proof.
  intros Hv. unfold window_total, window_Q.
  destruct (add_sum (map (fun i => bonus_at h (d - i)) (seqZ 0 7))
              (map (fun i => valQ h (d - i)) (seqZ 0 7)) (inject_Z 0))
    as (u & Hu & Hu').
  { apply Forall2_fmap, Forall_Forall2_diag, Forall_forall.
    intros i _. now apply bonus_at_valQ. }
  exists u. split; [exact Hu|]. rewrite Hu'. change (inject_Z 0) with 0%Q. lra.
Qed.

Lemma hist_ok_empty (last : Z) : hist_ok ∅ last.
Proof.
  split.
  - intros k v H. rewrite lookup_empty in H. discriminate.
  - intros k _. apply lookup_empty.
  - intros d. unfold window_Q, valQ. rewrite seqZ_0_7. cbn [map Qsum].
    rewrite !lookup_empty. lra.
Qed.

Lemma hist_ok_later (h : gmap Z num) (last last' : Z) :
  last <= last' -> hist_ok h last -> hist_ok h last'.
Proof.
  intros Hle [Hv Hk Hw]. split; auto. intros k Hlt. apply Hk. lia.
Qed.

(** The granted bonus is finite, not negative, and within the headroom. *)
Lemma cappedBonusToday_fits (now : Z) (kcal : num) (h : gmap Z num) :
  (forall k v, h !! k = Some v -> exists q, v = Fin q /\ (0 <= q)%Q) ->
  exists r : Q,
    cappedBonusToday tz now kcal h = Fin r /\ (0 <= r)%Q /\
    (r <= Qmax 0 (60 - Qsum (map (fun i => valQ h (todayKey tz now - (i + 1)))
                               (seqZ 0 6))))%Q.
Proof.
  intros Hv. unfold cappedBonusToday, last6Bonuses.
  destruct (activitySugarBonusKcal_range kcal) as (z & -> & Hz).
  rewrite last6Keys_eq, map_map.
  destruct (weeklyCappedBonus_Fin
              (map (fun i => bonus_at h (todayKey tz now - (i + 1))) (seqZ 0 6))
              (map (fun i => valQ h (todayKey tz now - (i + 1))) (seqZ 0 6))
              (inject_Z z)) as (r & Hr & Hr').
  { apply Forall2_fmap, Forall_Forall2_diag, Forall_forall.
    intros i _. now apply bonus_at_valQ. }
  exists r. split; [exact Hr|]. rewrite Hr'.
  assert (Hz0 : (0 <= inject_Z z)%Q).
  { change 0%Q with (inject_Z 0). rewrite <- Zle_Qle. lia. }
  split; [|apply Q.le_min_r].
  apply Q.min_glb; [exact Hz0 | apply Q.le_max_l].
Qed.

(** One rendering keeps the history in order. *)
Lemma persistBonus_ok (now : Z) (kcal : num) (h : gmap Z num) (last : Z) :
  hist_ok h last -> last <= todayKey tz now ->
  hist_ok (persistBonus tz now kcal h) (todayKey tz now).
Proof.
  intros Hok Hlast.
  assert (Hrec : hist_ok (<[todayKey tz now := cappedBonusToday tz now kcal h]> h)
                   (todayKey tz now)).
  { destruct Hok as [Hv Hk Hw].
    destruct (cappedBonusToday_fits now kcal h Hv) as (r & -> & Hr0 & Hr).
    set (T := todayKey tz now) in *.
    split.
    - intros k v. rewrite lookup_insert. case_decide.
      + intros [= <-]. eauto.
      + apply Hv.
    - intros k Hlt. rewrite lookup_insert_ne by lia. apply Hk. lia.
    - apply (window_after_record (valQ h) _ T r); auto.
      + intros k Hne. unfold valQ. now rewrite lookup_insert_ne.
      + unfold valQ. now rewrite lookup_insert_eq.
      + intros k Hlt. unfold valQ. rewrite Hk by lia. reflexivity.
      + intros k. now apply valQ_nonneg. }
  unfold persistBonus.
  destruct (h !! todayKey tz now) as [v|]; [|exact Hrec].
  destruct (eqb v _); [|exact Hrec].
  now apply (hist_ok_later h last).
Qed.

Lemma run_from_ok (es : list Tick) (h : gmap Z num) (last t0 : Z) :
  hist_ok h last -> last <= todayKey tz t0 -> chronological_from t0 es ->
  exists last',
    hist_ok (fold_left (fun h e => persistBonus tz (tick_now e) (tick_kcal e) h)
               es h) last'.
Proof.
  revert h last t0. induction es as [|e es IH]; intros h last t0 Hok Hl Hc.
  - now exists last.
  - destruct Hc as [Ht Hc]. cbn [fold_left].
    apply (IH _ (todayKey tz (tick_now e)) (tick_now e)); [|lia|exact Hc].
    apply (persistBonus_ok _ _ _ last); [exact Hok|].
    etrans; [exact Hl|]. rewrite !todayKey_dayKey. now apply dayKey_mono.
Qed.

(** The weekly cap in a zone of constant offset.  Start from the empty
    bonus history and let the application render
    any number of times, the clock never running backwards, each rendering
    recording for its day the bonus it grants (the day-capped bonus cut to
    the headroom left by the six days before).  Then for every day [d] the
    bonuses recorded for [d] and the six days before it add up to at most
    60 g.  A zone that changes its offset across UTC breaks this, see the
    section on London. *)
Theorem weekly_window_cap (es : list Tick) (d : Z) :
  chronological es ->
  (window_total (run_days tz es) d <=? of_Z 60)%num = true.
Proof.
  intros Hc.
  assert (Hok : exists last, hist_ok (run_days tz es) last).
  { unfold run_days. destruct es as [|e es].
    - exists 0. apply hist_ok_empty.
    - cbn [fold_left]. simpl in Hc.
      apply (run_from_ok es _ (todayKey tz (tick_now e)) (tick_now e));
        [|lia|exact Hc].
      apply (persistBonus_ok _ _ _ (todayKey tz (tick_now e)));
        [apply hist_ok_empty | lia]. }
  destruct Hok as (last & [Hv Hk Hw]).
  destruct (window_total_Q _ d Hv) as (u & -> & Hu).
  simpl. apply Qle_bool_iff. rewrite Hu. apply Hw.
Qed.

End WeeklyWindow.

Lemma weekly_window_cap_witness :
  let day n kcal := {| tick_now := n * 86400000 + 3600000;
                       tick_kcal := of_Z kcal |} in
  let es := [day 0 1000; day 1 1000; day 2 1000; day 3 1000; day 3 40;
             day 5 300; day 8 1000] in
  chronological es /\
  (window_total (run_days 19800000 es) 7 <=? of_Z 60)%num = true.
Proof.
  cbv zeta. split; [simpl; lia|].
  apply (weekly_window_cap 19800000); simpl; lia.
Defined.

(** ** Consumption aggregator *)

Section Aggregator.

Variable tz : Z.

Lemma or0_Some (x : Z) : or0 (Some x) = x.
Proof. unfold or0. destruct (x =? 0) eqn:E; [|reflexivity]. lia. Qed.

Lemma day_total_cons (k : Z) (l : LogEntry) (logs : list LogEntry) :
  day_total tz k (l :: logs) =
    (if dayKey tz (ts l) =? k then sugarG l else 0) + day_total tz k logs.
Proof.
  unfold day_total. cbn [List.filter].
  destruct (dayKey tz (ts l) =? k); reflexivity.
Qed.

Lemma day_total_none (k : Z) (logs : list LogEntry) :
  existsb (fun l => dayKey tz (ts l) =? k) logs = false -> day_total tz k logs = 0.
Proof.
  induction logs as [|l logs IH]; [reflexivity|].
  cbn [existsb]. intros H. apply orb_false_iff in H. destruct H as [H1 H2].
  rewrite day_total_cons, H1, IH by exact H2. reflexivity.
Qed.

(** What the loop of [rollupByDay] leaves under a key. *)
Lemma rollup_fold_lookup (logs : list LogEntry) (m : gmap Z Z) (k : Z) :
  fold_left
    (fun map l =>
       let key := dayKey tz (ts l) in
       <[key := or0 (map !! key) + sugarG l]> map) logs m !! k =
  if existsb (fun l => dayKey tz (ts l) =? k) logs
  then Some (or0 (m !! k) + day_total tz k logs)
  else m !! k.
Proof.
  revert m. induction logs as [|l logs IH]; intros m; [reflexivity|].
  cbn [fold_left existsb]. rewrite IH, day_total_cons. cbv zeta.
  destruct (dayKey tz (ts l) =? k) eqn:E.
  - apply Z.eqb_eq in E. subst k. rewrite lookup_insert_eq, or0_Some.
    cbn [orb]. destruct (existsb _ logs) eqn:Ex.
    + f_equal. lia.
    + rewrite day_total_none by exact Ex. f_equal. lia.
  - apply Z.eqb_neq in E. rewrite lookup_insert_ne by exact E.
    cbn [orb]. destruct (existsb _ logs); [f_equal; lia | reflexivity].
Qed.

Lemma rollupByDay_lookup (logs : list LogEntry) (k : Z) :
  rollupByDay tz logs !! k =
    if existsb (fun l => dayKey tz (ts l) =? k) logs then Some (day_total tz k logs) else None.
Proof.
  unfold rollupByDay. rewrite rollup_fold_lookup, lookup_empty. reflexivity.
Qed.

(** The total under a key, an absent key counting for 0, is the sum of the
    entries of that day. *)
Lemma rollupByDay_total (logs : list LogEntry) (k : Z) :
  or0 (rollupByDay tz logs !! k) = day_total tz k logs.
Proof.
  rewrite rollupByDay_lookup. destruct (existsb _ logs) eqn:E.
  - apply or0_Some.
  - now rewrite day_total_none.
Qed.

Lemma existsb_Permutation {A} (p : A -> bool) (l l' : list A) :
  l ≡ₚ l' -> existsb p l = existsb p l'.
Proof.
  induction 1 as [|x l l' _ IH|x y l|l l' l'' _ IH1 _ IH2]; cbn [existsb].
  - reflexivity.
  - now rewrite IH.
  - destruct (p x), (p y); reflexivity.
  - now rewrite IH1.
Qed.

Lemma day_total_Permutation (k : Z) (l l' : list LogEntry) :
  l ≡ₚ l' -> day_total tz k l = day_total tz k l'.
Proof.
  induction 1 as [|x l l' _ IH|x y l|l l' l'' _ IH1 _ IH2];
    rewrite ?day_total_cons; lia.
Qed.

(** C9.  Two ledgers that hold the same entries in different orders roll up
    to the same map: the same days have a total, and the total of a day is
    the sum of the entries of that day. *)
Theorem rollupByDay_Permutation (logs logs' : list LogEntry) :
  logs ≡ₚ logs' ->
  rollupByDay tz logs = rollupByDay tz logs' /\
  forall k, or0 (rollupByDay tz logs' !! k) = day_total tz k logs.
Proof.
  intros HP. split.
  - apply map_eq. intros k. rewrite !rollupByDay_lookup.
    rewrite (existsb_Permutation _ _ _ HP), (day_total_Permutation k _ _ HP).
    reflexivity.
  - intros k. rewrite rollupByDay_total. symmetry.
    now apply day_total_Permutation.
Qed.

(** The test of the filter of [todaySugar] holds exactly for the instants
    whose key is today's. *)
Lemma in_today_dayKey (now t : Z) :
  (t >=? startOfDay tz now) && (t <=? setHours tz now 23 59 59 999) =
  (dayKey tz t =? dayKey tz now).
Proof.
  rewrite !dayKey_eq. unfold startOfDay, setHours, MS_PER_DAY.
  apply eq_true_iff_eq.
  rewrite andb_true_iff, Z.geb_le, Z.leb_le, Z.eqb_eq.
  Z.div_mod_to_equations. lia.
Qed.

Lemma fold_left_sum (logs : list LogEntry) (acc : Z) :
  fold_left (fun a b => a + sugarG b) logs acc =
  acc + foldr Z.add 0 (map sugarG logs).
Proof.
  revert acc. induction logs as [|l logs IH]; intros acc; cbn; [lia|].
  rewrite IH. lia.
Qed.

(** Today's total in a zone of constant offset.  The sum of the entries
    stamped between local midnight and local
    23:59:59.999 of the current day is the total that [rollupByDay] holds
    under today's key, an absent key counting for 0.  A zone that changes
    its offset across UTC breaks this, see the section on London. *)
Theorem todaySugar_rollupByDay (now : Z) (logs : list LogEntry) :
  todaySugar tz now logs = or0 (rollupByDay tz logs !! todayKey tz now).
Proof.
  rewrite rollupByDay_total, todayKey_dayKey.
  unfold todaySugar, day_total. cbv zeta. rewrite fold_left_sum, Z.add_0_l.
  do 2 f_equal. apply List.filter_ext. intros l. apply in_today_dayKey.
Qed.

(** The week chart: seven points on consecutive keys, the last of them on
    the key of the current instant. *)
Lemma last7DaysSeries_days (now : Z) (logs : list LogEntry) (lim : num) :
  map day (last7DaysSeries tz now logs lim) =
  map (fun d => todayKey tz now - 6 + d) (seqZ 0 7).
Proof.
  unfold last7DaysSeries. cbv zeta. rewrite map_map. apply map_ext.
  intros d. cbn [day]. unfold addDays at 1.
  replace (addDays (startOfDay tz now) (-6) + d * MS_PER_DAY)
    with (addDays (startOfDay tz now) (-6 + d)) by (unfold addDays; lia).
  rewrite offset_key. lia.
Qed.

Lemma last7DaysSeries_length (now : Z) (logs : list LogEntry) (lim : num) :
  length (last7DaysSeries tz now logs lim) = 7%nat.
Proof. unfold last7DaysSeries. now rewrite length_map. Qed.

Lemma last7DaysSeries_sugar (now : Z) (logs : list LogEntry) (lim : num) :
  map sugar (last7DaysSeries tz now logs lim) =
  map (fun d => day_total tz (todayKey tz now - 6 + d) logs) (seqZ 0 7).
Proof.
  unfold last7DaysSeries. cbv zeta. rewrite map_map. apply map_ext.
  intros d. cbn [sugar]. rewrite rollupByDay_total. f_equal.
  replace (addDays (addDays (startOfDay tz now) (-6)) d)
    with (addDays (startOfDay tz now) (-6 + d)) by (unfold addDays; lia).
  rewrite offset_key. lia.
Qed.

(** At or west of Greenwich the key of an instant is its local calendar
    date; east of Greenwich it is the date before. *)
Lemma todayKey_west (now : Z) :
  - MS_PER_DAY < tz <= 0 -> todayKey tz now = localDate tz now.
Proof.
  intros H. rewrite todayKey_dayKey, dayKey_eq. unfold localDate.
  replace (- tz / MS_PER_DAY) with 0; [lia|].
  symmetry. apply Z.div_small. unfold MS_PER_DAY in *. lia.
Qed.

Lemma todayKey_east (now : Z) :
  0 < tz < MS_PER_DAY -> todayKey tz now = localDate tz now - 1.
Proof.
  intros H. rewrite todayKey_dayKey, dayKey_eq. unfold localDate.
  replace (- tz / MS_PER_DAY) with (-1); [lia|].
  unfold MS_PER_DAY in *. Z.div_mod_to_equations. lia.
Qed.

End Aggregator.

Lemma rollupByDay_Permutation_witness :
  let e t g := {| id := "e"; ts := t; item := "tea"; sugarG := g;
                  context := None |} in
  let logs := [e 1704135600000 5; e 1704049200000 3; e 1704135600001 7] in
  let logs' := [e 1704049200000 3; e 1704135600000 5; e 1704135600001 7] in
  logs ≡ₚ logs' /\
  rollupByDay 0 logs = rollupByDay 0 logs' /\
  forall k, or0 (rollupByDay 0 logs' !! k) = day_total 0 k logs.
Proof.
  cbv zeta. split; [apply perm_swap|].
  apply (rollupByDay_Permutation 0). apply perm_swap.
Defined.

(** C7 in a zone east of Greenwich.  In a zone five and a half hours ahead
    of UTC, at 00:30 on 2 January 2024 (day 19724 of the epoch), the series
    has seven points on consecutive keys, oldest first, but the last key is
    day 19723, 1 January: [toISOString] renders local midnight in UTC, where
    it is still the evening before. *)
Theorem last7DaysSeries_east_of_Greenwich (logs : list LogEntry) (lim : num) :
  let tz := 19800000 in
  let now := 1704135600000 in
  length (last7DaysSeries tz now logs lim) = 7%nat /\
  map day (last7DaysSeries tz now logs lim) =
    [19717; 19718; 19719; 19720; 19721; 19722; 19723] /\
  localDate tz now = 19724.
Proof.
  cbv zeta. split; [apply last7DaysSeries_length|].
  split; [|reflexivity]. rewrite last7DaysSeries_days. reflexivity.
Qed.

(** ** CSV import *)

Section CsvFacts.

Variable Date_parse : string -> num.
Variable now : Z.

Lemma length_filter_le {A} (p : A -> bool) (l : list A) :
  (length (List.filter p l) <= length l)%nat.
Proof.
  induction l as [|x l IH]; cbn [List.filter]; [lia|].
  destruct (p x); cbn [length]; lia.
Qed.

Lemma length_omap_le {A B} (f : A -> option B) (l : list A) :
  (length (omap f l) <= length l)%nat.
Proof.
  induction l as [|x l IH]; cbn; [lia|]. destruct (f x); cbn; lia.
Qed.

(** [parseCsv] is a total function, and it returns at most one row per line
    of the text. *)
Lemma parseCsv_length (text : string) :
  (length (Csv.parseCsv Date_parse now text) <= length (split_lines text))%nat.
Proof.
  unfold Csv.parseCsv. cbv zeta.
  pose proof (length_filter_le
    (fun l => negb (String.length (trim l) =? 0)%nat) (split_lines text)) as Hf.
  destruct (List.filter _ (split_lines text)) as [|first rest]; [cbn; lia|].
  destruct (test_any _ _).
  - pose proof (length_omap_le (Csv.parseLine Date_parse now) rest).
    cbn [length] in Hf. lia.
  - pose proof (length_omap_le (Csv.parseLine Date_parse now) (first :: rest)).
    lia.
Qed.

Example parseCsv_Water : Csv.parseCsv Date_parse now "Water,0" = [].
Proof. reflexivity. Qed.

(** A row comes only from a line whose cell for the item is not empty and
    whose amount reads as a number other than zero; the row carries the
    trimmed cell and the rounded amount. *)
Lemma parseLine_Some (line : string) (r : Csv.Row) :
  Csv.parseLine Date_parse now line = Some r ->
  exists (cell : string) (amount : num),
    nonempty cell = true /\ truthy amount = true /\
    Csv.item r = trim cell /\ Csv.sugarG r = Math_round amount.
Proof.
  unfold Csv.parseLine. cbv zeta.
  destruct (split_on ","%char line) as [|c0 [|c1 [|c2 more]]];
    try discriminate.
  - destruct (nonempty c0) eqn:E1; [|discriminate].
    destruct (truthy _) eqn:E2; [|discriminate].
    cbn [negb orb]. intros [= <-]. eauto 10.
  - destruct (nonempty c1) eqn:E1; [|discriminate].
    destruct (truthy _) eqn:E2; [|discriminate].
    cbn [negb orb]. intros [= <-]. eauto 10.
Qed.

(** C10 on a line whose item is blank.  The test [!item] is made before
    [item.trim()]: the line " ,5" passes it and yields a row whose label is
    empty, a row that the filter of [addLogs] then refuses.  In the same
    way the amount is tested before it is rounded: "Tea,0.4" yields a row of
    0 g. *)
Theorem parseCsv_keeps_blank_item :
  Csv.parseCsv Date_parse now " ,5" =
    [{| Csv.ts := of_Z now; Csv.item := ""; Csv.sugarG := of_Z 5 |}] /\
  Csv.addLogs_keeps
    {| Csv.ts := of_Z now; Csv.item := ""; Csv.sugarG := of_Z 5 |} = false /\
  Csv.parseCsv Date_parse now "Tea,0.4" =
    [{| Csv.ts := of_Z now; Csv.item := "Tea"; Csv.sugarG := of_Z 0 |}].
Proof. repeat split; reflexivity. Qed.

End CsvFacts.

(** ** The base limit handed to the bonus engine *)

(** Under a table of finite coefficients the limit is a finite number for
    every profile, whatever its fields hold. *)
Lemma total_finite (user : Onboarding) (S : Settings) :
  finite_table S -> is_finite (total (estimateDailySugarLimitG user S)).
Proof.
  intros HS. unfold estimateDailySugarLimitG. cbn [total].
  apply total_finite_of_parts; auto.
  - table_fields HS. destruct (sex user); auto.
  - table_fields HS. repeat case_match; simpl; auto.
  - now apply pancreasCapacityFactor_finite.
  - table_fields HS. repeat case_match; simpl; auto.
  - now apply activityFactor_finite.
  - destruct (useEthnicityAdjustment user); [now apply ethnicityFactor_finite|].
    exact I.
Qed.

Lemma clamp_lower (q lo hi : Q) :
  exists r, clamp (Fin q) (Fin lo) (Fin hi) = Fin r /\ (lo <= r)%Q.
Proof.
  unfold clamp. rewrite Math_min_Fin.
  destruct (Qle_bool hi q); rewrite Math_max_Fin;
    match goal with
    | |- context [Qle_bool ?a ?b] =>
        destruct (Qle_bool a b) eqn:E;
        [apply Qle_bool_iff in E | apply Qle_bool_false in E]
    end; eexists; (split; [reflexivity|]); lra.
Qed.

(** With finite coefficients and a lower clamp bound that is not negative,
    the base limit is a whole number of grams, zero or more: the operand
    that [applyDailyCap] is specified for. *)
Lemma total_whole_nonneg (user : Onboarding) (S : Settings) :
  finite_table S -> (of_Z 0 <=? clampMin S)%num = true ->
  exists b : Z,
    total (estimateDailySugarLimitG user S) = of_Z b /\ (0 <= b)%Z.
Proof.
  intros HS Hlo. pose proof HS as HS'. table_fields HS'.
  unfold estimateDailySugarLimitG. cbn [total].
  match goal with
  | |- context [clamp ?l _ _] =>
      assert (Hl : is_finite l);
      [| apply is_finite_Fin in Hl; destruct Hl as [q ->]]
  end.
  { repeat apply mul_finite; auto.
    - destruct (sex user); auto.
    - repeat case_match; simpl; auto.
    - now apply pancreasCapacityFactor_finite.
    - repeat case_match; simpl; auto.
    - now apply activityFactor_finite.
    - destruct (useEthnicityAdjustment user);
        [now apply ethnicityFactor_finite | exact I]. }
  destruct (clampMin S) as [lo| | |] eqn:Elo; try contradiction.
  destruct (clampMax S) as [hi| | |] eqn:Ehi; try contradiction.
  destruct (clamp_lower q lo hi) as (r & -> & Hr).
  simpl in Hlo. apply Qle_bool_iff in Hlo. change (inject_Z 0) with 0%Q in Hlo.
  exists (round_Q r). split; [reflexivity|].
  rewrite <- (round_Q_Z 0). apply round_Q_mono.
  change (inject_Z 0) with 0%Q. lra.
Qed.

Example total_default :
  total (estimateDailySugarLimitG defaultOnboarding defaultSettings) = of_Z 30.
Proof. reflexivity. Qed.

(** * Further properties of the code *)

(** ** The limit and its clamp *)

(** Under finite coefficients the limit is the rounded clamp of a finite
    product, for every profile. *)
Lemma estimate_total_shape (user : Onboarding) (S : Settings) :
  finite_table S ->
  exists q : Q,
    total (estimateDailySugarLimitG user S) =
      Math_round (clamp (Fin q) (clampMin S) (clampMax S)).
Proof.
  intros HS. pose proof HS as HS'. table_fields HS'.
  unfold estimateDailySugarLimitG. cbn [total].
  match goal with
  | |- context [clamp ?l _ _] =>
      assert (Hl : is_finite l);
      [| apply is_finite_Fin in Hl; destruct Hl as [q ->]; now exists q]
  end.
  repeat apply mul_finite; auto.
  - destruct (sex user); auto.
  - repeat case_match; simpl; auto.
  - now apply pancreasCapacityFactor_finite.
  - repeat case_match; simpl; auto.
  - now apply activityFactor_finite.
  - destruct (useEthnicityAdjustment user);
      [now apply ethnicityFactor_finite | exact I].
Qed.

(** X1.  Under a table of finite coefficients whose clamp bounds are in
    order, the daily limit of every profile, whatever its fields hold, is a
    whole number of grams between the rounded lower and the rounded upper
    bound of the clamp. *)
Theorem estimate_total_within_clamp (user : Onboarding) (S : Settings)
    (lo hi : Q) :
  finite_table S -> clampMin S = Fin lo -> clampMax S = Fin hi -> (lo <= hi)%Q ->
  exists b : Z,
    total (estimateDailySugarLimitG user S) = of_Z b /\
    (round_Q lo <= b <= round_Q hi)%Z.
Proof.
  intros HS Hlo Hhi Hle.
  destruct (estimate_total_shape user S HS) as (q & ->).
  rewrite Hlo, Hhi. destruct (clamp_range q lo hi Hle) as (r & -> & Hr1 & Hr2).
  exists (round_Q r). split; [reflexivity|].
  split; now apply round_Q_mono.
Qed.

Lemma estimate_total_within_clamp_witness :
  exists b : Z,
    total (estimateDailySugarLimitG defaultOnboarding defaultSettings) = of_Z b /\
    (round_Q 18 <= b <= round_Q 42)%Z.
Proof.
  apply (estimate_total_within_clamp defaultOnboarding defaultSettings 18 42).
  - unfold finite_table. repeat constructor.
  - reflexivity.
  - reflexivity.
  - unfold Qle. simpl. lia.
Defined.

(** X2.  When the clamp bounds are out of order (lower above upper), the
    lower bound wins: every profile gets the rounded lower bound as its
    limit. *)
Theorem estimate_total_inverted_clamp (user : Onboarding) (S : Settings)
    (lo hi : Q) :
  finite_table S -> clampMin S = Fin lo -> clampMax S = Fin hi -> (hi < lo)%Q ->
  total (estimateDailySugarLimitG user S) = of_Z (round_Q lo).
Proof.
  intros HS Hlo Hhi Hlt.
  destruct (estimate_total_shape user S HS) as (q & ->).
  rewrite Hlo, Hhi. unfold clamp. rewrite Math_min_Fin.
  destruct (Qle_bool hi q) eqn:E1; rewrite Math_max_Fin.
  - destruct (Qle_bool lo hi) eqn:E2; [|reflexivity].
    apply Qle_bool_iff in E2. lra.
  - apply Qle_bool_false in E1.
    destruct (Qle_bool lo q) eqn:E2; [|reflexivity].
    apply Qle_bool_iff in E2. lra.
Qed.

Lemma estimate_total_inverted_clamp_witness :
  let S := {| baseMale := of_Z 36; baseFemale := of_Z 25; baseOther := of_Z 30;
              bmiUnder := of_Z 1; bmiOver := of_Z 1; bmiObese := of_Z 1;
              pancreasYouth := of_Z 1; pancreasMiddle := of_Z 1;
              pancreasSenior := of_Z 1;
              ageChild := of_Z 1; ageMiddle := of_Z 1; ageSenior := of_Z 1;
              actHigh := of_Z 1; actLow := of_Z 1;
              ethSouthAsian := of_Z 1; ethEastAsian := of_Z 1;
              ethHispanic := of_Z 1; ethBlack := of_Z 1;
              clampMin := of_Z 42; clampMax := of_Z 18 |} in
  total (estimateDailySugarLimitG defaultOnboarding S) = of_Z (round_Q 42).
Proof.
  cbv zeta.
  apply (estimate_total_inverted_clamp defaultOnboarding _ 42 18).
  - unfold finite_table. repeat constructor.
  - reflexivity.
  - reflexivity.
  - unfold Qlt. simpl. lia.
Defined.





(** ** Ethnicity labels *)

Section EthnicityLabels.

Local Open Scope string_scope.

Lemma toLowerCase_app (a b : string) :
  toLowerCase (a ++ b) = toLowerCase a ++ toLowerCase b.
Proof. induction a as [|c a IH]; simpl; [reflexivity | now rewrite IH]. Qed.

Lemma prefix_app (w s : string) : String.prefix w (w ++ s) = true.
Proof.
  induction w as [|c w IH]; simpl; [now destruct s|].
  destruct (Ascii.ascii_dec c c); [exact IH | congruence].
Qed.

Lemma contains_prefix (w s : string) :
  String.prefix w s = true -> contains w s = true.
Proof. intros H. destruct s; cbn [contains]; rewrite H; reflexivity. Qed.

Lemma contains_app (w pre post : string) : contains w (pre ++ w ++ post) = true.
Proof.
  induction pre as [|c pre IH].
  - change ("" ++ w ++ post) with (w ++ post).
    apply contains_prefix, prefix_app.
  - change (String c pre ++ w ++ post) with (String c (pre ++ w ++ post)).
    cbn [contains]. rewrite IH. apply orb_true_r.
Qed.

Lemma nonempty_app_mid (pre w post : string) :
  nonempty w = true -> nonempty (pre ++ w ++ post) = true.
Proof. destruct pre; [|reflexivity]. now destruct w. Qed.

Lemma toLowerCase_nonempty (w : string) :
  nonempty (toLowerCase w) = nonempty w.
Proof. now destruct w. Qed.

(** X4.  A label that contains one of the South-Asian keywords anywhere, in
    any mix of upper and lower case, gets the South-Asian coefficient,
    whatever else the label says: that group is tested first. *)
Theorem ethnicityFactor_south_asian_first (pre w post : string) (S : Settings) :
  In (toLowerCase w)
     ["south asian"; "indian"; "pakistani"; "bangladesh"; "sri lanka"] ->
  ethnicityFactor (Some (pre ++ w ++ post)) S = ethSouthAsian S.
Proof.
  intros Hin. unfold ethnicityFactor.
  assert (Hne : nonempty w = true).
  { rewrite <- toLowerCase_nonempty.
    cbn [In] in Hin. destruct Hin as [<-|[<-|[<-|[<-|[<-|[]]]]]]; reflexivity. }
  rewrite (nonempty_app_mid pre w post Hne). cbn [negb].
  rewrite !toLowerCase_app.
  assert (Hc : contains (toLowerCase w)
                 (toLowerCase pre ++ toLowerCase w ++ toLowerCase post) = true)
    by apply contains_app.
  assert (Ht : test_any
                 ["south asian"; "indian"; "pakistani"; "bangladesh"; "sri lanka"]
                 (toLowerCase pre ++ toLowerCase w ++ toLowerCase post) = true).
  { unfold test_any. apply existsb_exists.
    exists (toLowerCase w). split; [exact Hin | exact Hc]. }
  now rewrite Ht.
Qed.

End EthnicityLabels.

Lemma ethnicityFactor_south_asian_first_witness :
  ethnicityFactor (Some ("British " ++ "INDIAN" ++ " / Chinese")%string)
    defaultSettings
  = ethSouthAsian defaultSettings.
Proof.
  apply (ethnicityFactor_south_asian_first "British " "INDIAN" " / Chinese").
  cbn. right. left. reflexivity.
Defined.

(** ** Rounding for display and the body-mass index *)

(** X5.  [round2] moves a finite number by at most half a hundredth. *)
Theorem round2_error (q : Q) :
  exists r : Q,
    round2 (Fin q) = Fin r /\ (q - (1 # 200) <= r <= q + (1 # 200))%Q.
Proof.
  unfold round2. cbn [mul Math_round of_Z div].
  change (Qeq_bool (inject_Z 100) 0) with false. cbn iota.
  eexists. split; [reflexivity|].
  unfold round_Q. set (x := (q * inject_Z 100 + (1 # 2))%Q).
  pose proof (Qfloor_le x) as H1. pose proof (Qlt_floor x) as H2.
  rewrite inject_Z_plus in H2. change (inject_Z 1) with 1%Q in H2.
  set (z := inject_Z (Qfloor x)) in *.
  change (inject_Z 100) with 100%Q in *. subst x.
  assert (Hz : (z / 100 == z * (1 # 100))%Q) by field.
  rewrite Hz. lra.
Qed.

(** X7.  A height of zero with a weight above zero gives a body-mass index
    of +Infinity, which the model files under the obese band. *)
Theorem zero_height_is_obese (user : Onboarding) (S : Settings) (w : Q) :
  heightCm user = of_Z 0 -> weightKg user = Fin w -> (0 < w)%Q ->
  let r := estimateDailySugarLimitG user S in
  bmiOf (heightCm user) (weightKg user) = PInf /\
  bd_bmi (breakdown r) = PInf /\
  bd_bmiAdj (breakdown r) = round2 (bmiObese S).
Proof.
  intros Hh Hw Hpos. cbv zeta.
  assert (Hb : bmiOf (heightCm user) (weightKg user) = PInf).
  { rewrite Hh, Hw. unfold bmiOf, cmToMeters. cbn [div of_Z].
    change (Qeq_bool (inject_Z 0) 0) with true.
    change (Qeq_bool (inject_Z 100) 0) with false. cbn iota. cbn [mul div].
    change (Qeq_bool (inject_Z 0 / inject_Z 100 * (inject_Z 0 / inject_Z 100)) 0)
      with true. cbn iota.
    assert (E0 : Qeq_bool w 0 = false) by (apply Qeq_bool_false; lra).
    assert (E1 : Qlt_bool 0 w = true) by (now apply Qlt_bool_iff).
    rewrite E0, E1. reflexivity. }
  split; [exact Hb|].
  unfold estimateDailySugarLimitG. cbn [breakdown bd_bmi bd_bmiAdj].
  rewrite Hb. split; reflexivity.
Qed.

Lemma zero_height_is_obese_witness :
  let user := with_body (of_Z 0) (Fin 75) defaultOnboarding in
  let r := estimateDailySugarLimitG user defaultSettings in
  bmiOf (heightCm user) (weightKg user) = PInf /\
  bd_bmi (breakdown r) = PInf /\
  bd_bmiAdj (breakdown r) = round2 (bmiObese defaultSettings).
Proof.
  apply (zero_height_is_obese (with_body (of_Z 0) (Fin 75) defaultOnboarding)
           defaultSettings 75).
  - reflexivity.
  - reflexivity.
  - unfold Qlt. simpl. lia.
Defined.

(** ** More on the activity bonus *)

(** The day-capped bonus on a finite energy reading. *)
Lemma activitySugarBonusKcal_Fin (kcal : Q) :
  activitySugarBonusKcal (Fin kcal) =
    if Qlt_bool kcal 100 then of_Z 0
    else of_Z (Z.min (round_Q (kcal / 10 * (5 # 10))) 20).
Proof.
  unfold activitySugarBonusKcal. cbn [truthy lt of_Z].
  change (inject_Z 100) with 100%Q.
  destruct (Qlt_bool kcal 100) eqn:E1.
  { now rewrite orb_true_r. }
  apply Qlt_bool_false in E1.
  destruct (Qeq_bool kcal 0) eqn:E0.
  { apply Qeq_bool_iff in E0. lra. }
  cbn [negb orb]. rewrite bonus_grams_Fin. cbn [Math_round]. unfold of_Z.
  rewrite Math_min_Fin.
  destruct (Qle_bool _ _) eqn:E.
  - apply Qle_bool_iff in E. rewrite <- Zle_Qle in E. now rewrite Z.min_l.
  - apply Qle_bool_false in E. rewrite <- Zlt_Qlt in E.
    rewrite Z.min_r by lia. reflexivity.
Qed.

Lemma round_Q_nonneg (q : Q) : (0 <= q)%Q -> (0 <= round_Q q)%Z.
Proof.
  intros H. rewrite <- (round_Q_Z 0). apply round_Q_mono.
  change (inject_Z 0) with 0%Q. exact H.
Qed.

Lemma le_of_Z (a b : Z) : (of_Z a <=? of_Z b)%num = true <-> (a <= b)%Z.
Proof. unfold of_Z. cbn [le]. rewrite Qle_bool_iff, <- Zle_Qle. tauto. Qed.

(** X8.  More energy never earns a smaller bonus. *)
Theorem activitySugarBonusKcal_monotone (k1 k2 : Q) :
  (k1 <= k2)%Q ->
  (activitySugarBonusKcal (Fin k1) <=? activitySugarBonusKcal (Fin k2))%num = true.
Proof.
  intros Hle. rewrite !activitySugarBonusKcal_Fin.
  destruct (Qlt_bool k1 100) eqn:E1; destruct (Qlt_bool k2 100) eqn:E2;
    try apply Qlt_bool_iff in E1; try apply Qlt_bool_false in E1;
    try apply Qlt_bool_iff in E2; try apply Qlt_bool_false in E2;
    apply le_of_Z.
  - lia.
  - apply Z.min_glb; [|lia]. apply round_Q_nonneg.
    assert (H : (k2 / 10 * (5 # 10) == k2 * (1 # 20))%Q) by field.
    rewrite H. lra.
  - lra.
  - apply Z.min_le_compat_r, round_Q_mono.
    assert (H1 : (k1 / 10 * (5 # 10) == k1 * (1 # 20))%Q) by field.
    assert (H2 : (k2 / 10 * (5 # 10) == k2 * (1 # 20))%Q) by field.
    rewrite H1, H2. lra.
Qed.

Lemma activitySugarBonusKcal_monotone_witness :
  (activitySugarBonusKcal (Fin 150) <=? activitySugarBonusKcal (Fin 260))%num
  = true.
Proof.
  apply (activitySugarBonusKcal_monotone 150 260). unfold Qle. simpl. lia.
Defined.

(** X9.  Whatever the energy reading is, NaN and the infinities included,
    the day-capped bonus is a whole number of grams that is either 0 or
    from 5 to 20: no reading earns 1 to 4 g. *)
Theorem activitySugarBonusKcal_zero_or_5_to_20 (kcal : num) :
  exists z : Z,
    activitySugarBonusKcal kcal = of_Z z /\ (z = 0 \/ 5 <= z <= 20)%Z.
Proof.
  destruct kcal as [q| | |].
  - rewrite activitySugarBonusKcal_Fin. destruct (Qlt_bool q 100) eqn:E.
    + exists 0%Z. split; [reflexivity | now left].
    + apply Qlt_bool_false in E. eexists. split; [reflexivity|]. right.
      split; [|apply Z.le_min_r]. apply Z.min_glb; [|lia].
      rewrite <- (round_Q_Z 5). apply round_Q_mono.
      assert (H : (q / 10 * (5 # 10) == q * (1 # 20))%Q) by field.
      rewrite H. change (inject_Z 5) with 5%Q. lra.
  - exists 20%Z. split; [reflexivity | lia].
  - exists 0%Z. split; [reflexivity | now left].
  - exists 0%Z. split; [reflexivity | now left].
Qed.

(** X10.  The full 20 g of a day are earned exactly from 390 kcal on. *)
Theorem activitySugarBonusKcal_full_from_390 (kcal : Q) :
  activitySugarBonusKcal (Fin kcal) = of_Z 20 <-> (390 <= kcal)%Q.
Proof.
  rewrite activitySugarBonusKcal_Fin.
  assert (H : (kcal / 10 * (5 # 10) + (1 # 2) == (kcal + 10) * (1 # 20))%Q)
    by field.
  destruct (Qlt_bool kcal 100) eqn:E.
  - apply Qlt_bool_iff in E. split; [intros H0; discriminate H0 | intros; lra].
  - apply Qlt_bool_false in E. unfold round_Q. rewrite (Qfloor_comp _ _ H).
    split.
    + intros Heq. assert (Hz : (20 <= Qfloor ((kcal + 10) * (1 # 20)))%Z).
      { set (x := Qfloor ((kcal + 10) * (1 # 20))) in *.
        unfold of_Z in Heq. injection Heq as Heq. lia. }
      rewrite Zle_Qle in Hz. pose proof (Qfloor_le ((kcal + 10) * (1 # 20))).
      change (inject_Z 20) with 20%Q in Hz. lra.
    + intros Hk. f_equal. apply Z.min_r.
      rewrite <- (Qfloor_Z 20). apply Qfloor_resp_le.
      change (inject_Z 20) with 20%Q. lra.
Qed.

(** The reduction over the history: an entry that is NaN or zero adds
    nothing. *)
Lemma used_sum_or0 (l : list num) (qs : list Q) (acc : Q) :
  Forall2 (fun a q => (a || of_Z 0)%num ==n Fin q) l qs ->
  exists u : Q,
    fold_left (fun a b => (a + (b || of_Z 0))%num) l (Fin acc) = Fin u /\
    (u == acc + Qsum qs)%Q.
Proof.
  intros H. revert acc. induction H as [|a q l qs Ha _ IH]; intros acc.
  - exists acc. split; [reflexivity | simpl; lra].
  - cbn [fold_left].
    destruct (a || of_Z 0)%num as [q0| | |]; simpl in Ha; try contradiction.
    cbn [add]. destruct (IH (acc + q0)%Q) as (u & Hu & Hu').
    exists u. split; [exact Hu|]. cbn [Qsum]. rewrite Hu', Ha. lra.
Qed.

(** X11.  In the weekly cap a prior-day figure that is NaN counts as 0:
    the granted bonus is min(t, max(0, 60 - sum of the figures that are
    numbers)). *)
Theorem weeklyCappedBonus_NaN_counts_0 (last6 : list (option Q)) (t : Q) :
  exists r : Q,
    weeklyCappedBonus (map prior_day last6) (Fin t) = Fin r /\
    (r == Qmin t (Qmax 0 (60 - Qsum (map (default 0%Q) last6))))%Q.
Proof.
  unfold weeklyCappedBonus.
  destruct (used_sum_or0 (map prior_day last6) (map (default 0%Q) last6)
              (inject_Z 0)) as (u & Hu0 & Hu).
  { apply Forall2_fmap, Forall_Forall2_diag, Forall_forall.
    intros [q|] _; cbn [prior_day default].
    - destruct (or_zero_Fin q) as (q' & -> & Hq). exact Hq.
    - simpl. reflexivity. }
  change (Fin (inject_Z 0)) with (of_Z 0) in Hu0. rewrite Hu0. clear Hu0.
  change (inject_Z 0) with 0%Q in Hu.
  set (s := Qsum (map (default 0%Q) last6)) in *.
  unfold sub, of_Z. cbn [neg add]. rewrite Math_max_Fin.
  change (inject_Z 0) with 0%Q. change (inject_Z 60) with 60%Q.
  destruct (Q.max_spec 0 (60 - s)) as [[M1 M2] | [M1 M2]];
    destruct (Qle_bool 0 (60 + - u)) eqn:E1;
    try apply Qle_bool_iff in E1; try apply Qle_bool_false in E1;
    rewrite Math_min_Fin;
    match goal with
    | |- context [Qle_bool ?a ?b] =>
        destruct (Qle_bool a b) eqn:E2;
        [apply Qle_bool_iff in E2 | apply Qle_bool_false in E2]
    end;
    eexists; (split; [reflexivity|]); rewrite M2;
    destruct (Q.min_spec t (60 - s)) as [[N1 N2] | [N1 N2]];
    destruct (Q.min_spec t 0) as [[P1 P2] | [P1 P2]];
    rewrite ?N2, ?P2; lra.
Qed.

(** On finite figures and a day-capped bonus that is not negative,
    the granted bonus is not negative and never more than the day-capped
    bonus. *)
Theorem weeklyCappedBonus_between (last6 : list Q) (t : Q) :
  (0 <= t)%Q ->
  exists r : Q,
    weeklyCappedBonus (map Fin last6) (Fin t) = Fin r /\ (0 <= r <= t)%Q.
Proof.
  intros Ht.
  destruct (weeklyCappedBonus_Fin _ _ t (Forall2_Fin last6)) as (r & Hr & Hr').
  exists r. split; [exact Hr|]. rewrite Hr'. split.
  - apply Q.min_glb; [exact Ht | apply Q.le_max_l].
  - apply Q.le_min_l.
Qed.

Lemma weeklyCappedBonus_between_witness :
  exists r : Q,
    weeklyCappedBonus (map Fin [20; 20; 15]%Q) (Fin 12) = Fin r /\
    (0 <= r <= 12)%Q.
Proof.
  apply (weeklyCappedBonus_between [20; 20; 15]%Q 12). unfold Qle. simpl. lia.
Defined.

(** X12.  On a base of [b] whole grams the daily limit is the base plus
    min(bonus, round(0.3 b)), with round(0.3 b) = (3 b + 5) div 10: a bonus
    within that margin arrives in full and a larger one is cut to it. *)
Theorem applyDailyCap_margin (b : Z) (g : Q) :
  exists r : Q,
    applyDailyCap (of_Z b) (Fin g) = Fin r /\
    (r == inject_Z b + Qmin g (inject_Z ((3 * b + 5) / 10)))%Q.
Proof.
  unfold applyDailyCap, of_Z. cbn [mul add Math_round]. unfold of_Z.
  rewrite Math_min_Fin, round_Q_13_10.
  assert (Hd : ((13 * b + 5) / 10 = b + (3 * b + 5) / 10)%Z).
  { replace (13 * b + 5)%Z with (b * 10 + (3 * b + 5))%Z by lia.
    rewrite Z.div_add_l by lia. reflexivity. }
  rewrite Hd, inject_Z_plus.
  set (m := inject_Z ((3 * b + 5) / 10)).
  destruct (Qle_bool _ _) eqn:E;
    [apply Qle_bool_iff in E | apply Qle_bool_false in E];
    eexists; (split; [reflexivity|]);
    destruct (Q.min_spec g m) as [[N1 N2] | [N1 N2]]; rewrite N2; lra.
Qed.

(** ** Today's bonus in [App] *)

Section TodayBonus.

Variable tz : Z.

Lemma or_else_idem (a : num) : ((a || of_Z 0) || of_Z 0)%num = (a || of_Z 0)%num.
Proof.
  unfold or_else. destruct (truthy a) eqn:E; [now rewrite E | reflexivity].
Qed.

Lemma bonus_at_or0 (h : gmap Z num) (k : Z) :
  (bonus_at h k || of_Z 0)%num = bonus_at h k.
Proof.
  unfold bonus_at. destruct (h !! k); [apply or_else_idem | reflexivity].
Qed.

Lemma fold_used_bonus_at (h : gmap Z num) (ks : list Z) (acc : num) :
  fold_left (fun a b => (a + (b || of_Z 0))%num) (map (bonus_at h) ks) acc =
  fold_left add (map (bonus_at h) ks) acc.
Proof.
  revert acc. induction ks as [|k ks IH]; intros acc; [reflexivity|].
  cbn [map fold_left]. rewrite bonus_at_or0. apply IH.
Qed.

(** X13.  The bonus applied today is the smaller of the day-capped bonus
    and the weekly headroom on display, whatever the bonus history holds. *)
Theorem cappedBonusToday_min_raw_remaining (now : Z) (kcal : num)
    (h : gmap Z num) :
  cappedBonusToday tz now kcal h =
    Math_min (activitySugarBonusKcal kcal) (weeklyRemaining tz now h).
Proof.
  unfold cappedBonusToday, weeklyCappedBonus, weeklyRemaining, last6Bonuses.
  now rewrite fold_used_bonus_at.
Qed.

Lemma last6Keys_not_today (now : Z) : todayKey tz now ∉ last6Keys tz now.
Proof.
  rewrite last6Keys_eq, seqZ_0_6. cbn [map].
  rewrite !not_elem_of_cons. repeat split; try lia. apply not_elem_of_nil.
Qed.

(** Today's record plays no part in today's bonus. *)
Lemma cappedBonusToday_insert_today (now : Z) (kcal v : num) (h : gmap Z num) :
  cappedBonusToday tz now kcal (<[todayKey tz now := v]> h) =
  cappedBonusToday tz now kcal h.
Proof.
  unfold cappedBonusToday, last6Bonuses. f_equal.
  apply map_ext_in. intros k Hk. unfold bonus_at.
  rewrite lookup_insert_ne; [reflexivity|].
  intros <-. apply (last6Keys_not_today now). now apply list_elem_of_In.
Qed.

(** X14.  In a zone of constant offset, persisting today's bonus a second
    time, at the same instant and with the same energy, changes nothing.
    (Where two local days share a key it does, see
    [persistBonus_flips_in_London].) *)
Theorem persistBonus_idempotent (now : Z) (kcal : num) (h : gmap Z num) :
  persistBonus tz now kcal (persistBonus tz now kcal h) =
  persistBonus tz now kcal h.
Proof.
  assert (Hins : persistBonus tz now kcal
                   (<[todayKey tz now := cappedBonusToday tz now kcal h]> h) =
                 <[todayKey tz now := cappedBonusToday tz now kcal h]> h).
  { unfold persistBonus. cbv zeta. rewrite cappedBonusToday_insert_today.
    rewrite lookup_insert_eq. destruct (eqb _ _); [reflexivity|].
    apply insert_insert_eq. }
  unfold persistBonus at 2 3. cbv zeta.
  destruct (h !! todayKey tz now) as [v|] eqn:E; [|exact Hins].
  destruct (eqb v (cappedBonusToday tz now kcal h)) eqn:Ev; [|exact Hins].
  unfold persistBonus. cbv zeta. now rewrite E, Ev.
Qed.

(** Persisting today's bonus leaves the record of every other day as
    it was, and leaves under today's key the bonus granted today (or a
    number equal to it that was already there). *)
Theorem persistBonus_lookup (now : Z) (kcal : num) (h : gmap Z num) :
  (forall k, k <> todayKey tz now ->
             persistBonus tz now kcal h !! k = h !! k) /\
  exists v, persistBonus tz now kcal h !! todayKey tz now = Some v /\
            (v = cappedBonusToday tz now kcal h \/
             eqb v (cappedBonusToday tz now kcal h) = true).
Proof.
  unfold persistBonus. cbv zeta. split.
  - intros k Hk.
    destruct (h !! todayKey tz now) as [v|];
      [destruct (eqb v _); [reflexivity|]|]; now rewrite lookup_insert_ne.
  - destruct (h !! todayKey tz now) as [v|] eqn:E.
    + destruct (eqb v _) eqn:Ev.
      * exists v. split; [exact E | now right].
      * eexists. rewrite lookup_insert_eq. split; [reflexivity | now left].
    + eexists. rewrite lookup_insert_eq. split; [reflexivity | now left].
Qed.

(** The granted bonus is also within the cap of a day. *)
Lemma cappedBonusToday_day_cap (now : Z) (kcal : num) (h : gmap Z num) :
  (forall k v, h !! k = Some v -> exists q, v = Fin q /\ (0 <= q)%Q) ->
  exists r : Q,
    cappedBonusToday tz now kcal h = Fin r /\ (0 <= r <= 20)%Q.
Proof.
  intros Hv. unfold cappedBonusToday, last6Bonuses.
  destruct (activitySugarBonusKcal_range kcal) as (z & -> & Hz).
  destruct (weeklyCappedBonus_Fin
              (map (bonus_at h) (last6Keys tz now))
              (map (valQ h) (last6Keys tz now))
              (inject_Z z)) as (r & Hr & Hr').
  { apply Forall2_fmap, Forall_Forall2_diag, Forall_forall.
    intros i _. now apply bonus_at_valQ. }
  exists r. split; [exact Hr|]. rewrite Hr'.
  assert (Hz0 : (0 <= inject_Z z)%Q).
  { change 0%Q with (inject_Z 0). rewrite <- Zle_Qle. lia. }
  assert (Hz20 : (inject_Z z <= 20)%Q).
  { change 20%Q with (inject_Z 20). rewrite <- Zle_Qle. lia. }
  split.
  - apply Q.min_glb; [exact Hz0 | apply Q.le_max_l].
  - eapply Qle_trans; [apply Q.le_min_l | exact Hz20].
Qed.

Lemma run_days_ok (es : list Tick) :
  chronological es -> exists last, hist_ok (run_days tz es) last.
Proof.
  intros Hc. unfold run_days. destruct es as [|e es].
  - exists 0. apply hist_ok_empty.
  - cbn [fold_left]. simpl in Hc.
    apply (run_from_ok tz es _ (todayKey tz (tick_now e)) (tick_now e));
      [|lia|exact Hc].
    apply (persistBonus_ok tz _ _ _ (todayKey tz (tick_now e)));
      [apply hist_ok_empty | lia].
Qed.

(** Within a chronological run every record is a bonus granted by some
    rendering, hence at most 20. *)
Lemma run_from_day_cap (es : list Tick) (h : gmap Z num) :
  (forall k v, h !! k = Some v -> exists q, v = Fin q /\ (0 <= q <= 20)%Q) ->
  forall k v,
    fold_left (fun h e => persistBonus tz (tick_now e) (tick_kcal e) h) es h
      !! k = Some v ->
    exists q, v = Fin q /\ (0 <= q <= 20)%Q.
Proof.
  revert h. induction es as [|e es IH]; intros h Hv; [exact Hv|].
  cbn [fold_left]. apply IH. intros k v.
  assert (Hv' : forall k v, h !! k = Some v -> exists q, v = Fin q /\ (0 <= q)%Q).
  { intros k0 v0 H0. destruct (Hv k0 v0 H0) as (q & -> & Hq & _). eauto. }
  destruct (cappedBonusToday_day_cap (tick_now e) (tick_kcal e) h Hv')
    as (r & Hr & Hr').
  unfold persistBonus. cbv zeta. rewrite Hr.
  destruct (h !! todayKey tz (tick_now e)) as [v0|];
    [destruct (eqb v0 _); [apply Hv|]|];
    (rewrite lookup_insert; case_decide; [intros [= <-]; eauto | apply Hv]).
Qed.

(** X15.  Starting from the empty history, whatever energy values are
    entered and at whatever instants, every bonus on record is a finite
    number from 0 to 20. *)
Theorem run_days_records_0_to_20 (es : list Tick) (k : Z) (v : num) :
  run_days tz es !! k = Some v ->
  exists q : Q, v = Fin q /\ (0 <= q <= 20)%Q.
Proof.
  unfold run_days. apply run_from_day_cap.
  intros k0 v0 H. rewrite lookup_empty in H. discriminate.
Qed.

(** X16.  After any chronological series of renderings, the limit shown
    for a base of [b] whole grams, [b >= 0], is a finite number that is at
    least the base, at most the base plus 20 g, and at most the 30%
    ceiling. *)
Theorem dailyLimit_bounds (es : list Tick) (now : Z) (kcal : num) (b : Z) :
  chronological es -> (0 <= b)%Z ->
  exists r : Q,
    dailyLimit tz now kcal (run_days tz es) (of_Z b) = Fin r /\
    (inject_Z b <= r)%Q /\ (r <= inject_Z b + 20)%Q /\
    (r <= inject_Z ((13 * b + 5) / 10))%Q.
Proof.
  intros Hc Hb. destruct (run_days_ok es Hc) as (last & [Hv _ _]).
  destruct (cappedBonusToday_day_cap now kcal (run_days tz es) Hv)
    as (g & Hg & Hg0 & Hg20).
  unfold dailyLimit. rewrite Hg.
  unfold applyDailyCap, of_Z. cbn [mul add Math_round]. unfold of_Z.
  rewrite Math_min_Fin, round_Q_13_10.
  assert (Hc' : (inject_Z b <= inject_Z ((13 * b + 5) / 10))%Q).
  { rewrite <- Zle_Qle. apply Z.div_le_lower_bound; lia. }
  destruct (Qle_bool _ _) eqn:E;
    [apply Qle_bool_iff in E | apply Qle_bool_false in E];
    eexists; (split; [reflexivity|]); repeat split; lra.
Qed.

End TodayBonus.

Lemma run_days_records_0_to_20_witness :
  let day n kcal := {| tick_now := n * 86400000; tick_kcal := of_Z kcal |} in
  let es := [day 0 1000; day 1 250] in
  run_days 0 es !! 1 = Some (of_Z 13) /\
  exists q : Q, of_Z 13 = Fin q /\ (0 <= q <= 20)%Q.
Proof.
  cbv zeta. split; [reflexivity|].
  apply (run_days_records_0_to_20 0
           [{| tick_now := 0 * 86400000; tick_kcal := of_Z 1000 |};
            {| tick_now := 1 * 86400000; tick_kcal := of_Z 250 |}] 1).
  reflexivity.
Defined.

Lemma dailyLimit_bounds_witness :
  let day n kcal := {| tick_now := n * 86400000; tick_kcal := of_Z kcal |} in
  let es := [day 0 1000; day 1 1000; day 2 1000] in
  chronological es /\
  exists r : Q,
    dailyLimit 0 (3 * 86400000) (of_Z 1000) (run_days 0 es) (of_Z 30) = Fin r /\
    (inject_Z 30 <= r)%Q /\ (r <= inject_Z 30 + 20)%Q /\
    (r <= inject_Z ((13 * 30 + 5) / 10))%Q.
Proof.
  cbv zeta. split; [simpl; lia|].
  apply (dailyLimit_bounds 0); [simpl; lia | lia].
Defined.

(** ** Days and keys *)

Section DaysAndKeys.

Variable tz : Z.

(** [startOfDay] gives an instant of the same local day that is not
    after the argument and less than a day before it; applied twice it
    gives the same instant as applied once. *)
Theorem startOfDay_same_day (t : Z) :
  startOfDay tz t <= t < startOfDay tz t + MS_PER_DAY /\
  localDate tz (startOfDay tz t) = localDate tz t /\
  startOfDay tz (startOfDay tz t) = startOfDay tz t.
Proof.
  unfold startOfDay, setHours, localDate, MS_PER_DAY.
  repeat split; Z.div_mod_to_equations; lia.
Qed.

(** X17.  Two instants get the same day key exactly when they fall on the
    same local calendar day; this holds in every zone, although the key
    itself is a UTC date. *)
Theorem dayKey_same_local_day (t t' : Z) :
  dayKey tz t = dayKey tz t' <-> localDate tz t = localDate tz t'.
Proof. rewrite !dayKey_eq. unfold localDate. lia. Qed.

(** [addDays] on a local midnight gives the local midnight that many
    days away, and moves the key by as many days; moving back undoes it. *)
Theorem addDays_midnight (t n : Z) :
  addDays (startOfDay tz t) n = startOfDay tz (addDays t n) /\
  dayKey tz (addDays t n) = dayKey tz t + n /\
  addDays (addDays t n) (- n) = t.
Proof.
  rewrite !dayKey_eq. unfold addDays, startOfDay, setHours, MS_PER_DAY.
  repeat split; try lia.
  - replace (t + n * 86400000 + tz) with (t + tz + n * 86400000) by lia.
    rewrite Z.div_add by lia. lia.
  - replace (t + n * 86400000 + tz) with (t + tz + n * 86400000) by lia.
    rewrite Z.div_add by lia. lia.
Qed.

(** ** More on the rollup *)

(** X18.  The rollup of two ledgers put end to end has, under every key,
    the sum of what the two rollups have under it, an absent key counting
    for 0. *)
Theorem rollupByDay_app (logs logs' : list LogEntry) (k : Z) :
  or0 (rollupByDay tz (logs ++ logs') !! k) =
  or0 (rollupByDay tz logs !! k) + or0 (rollupByDay tz logs' !! k).
Proof.
  rewrite !rollupByDay_total. unfold day_total.
  rewrite List.filter_app, map_app, foldr_app.
  generalize (map sugarG (List.filter (fun l => dayKey tz (ts l) =? k) logs')).
  intros l2.
  induction (map sugarG (List.filter (fun l => dayKey tz (ts l) =? k) logs))
    as [|x l1 IH]; cbn [foldr]; lia.
Qed.

(** X19.  A key is absent from the rollup exactly when no entry of the
    ledger falls on that day; the rollup of the empty ledger is empty. *)
Theorem rollupByDay_absent (logs : list LogEntry) (k : Z) :
  (rollupByDay tz logs !! k = None <->
   forall l, In l logs -> dayKey tz (ts l) <> k) /\
  rollupByDay tz [] = ∅.
Proof.
  split; [|reflexivity].
  rewrite rollupByDay_lookup.
  destruct (existsb (fun l => dayKey tz (ts l) =? k) logs) eqn:E.
  - split; [discriminate|]. intros H. exfalso.
    apply existsb_exists in E. destruct E as (l & Hl & Hk).
    apply Z.eqb_eq in Hk. exact (H l Hl Hk).
  - split; [|reflexivity]. intros _ l Hl Hk.
    assert (Ex : existsb (fun l => dayKey tz (ts l) =? k) logs = true).
    { apply existsb_exists. exists l. split; [exact Hl | now apply Z.eqb_eq]. }
    congruence.
Qed.

Lemma day_total_week (logs : list LogEntry) (T : Z) :
  foldr Z.add 0 (map (fun d => day_total tz (T - 6 + d) logs) (seqZ 0 7)) =
  foldr Z.add 0
    (map sugarG
       (List.filter
          (fun l => (T - 6 <=? dayKey tz (ts l)) && (dayKey tz (ts l) <=? T))
          logs)).
Proof.
  rewrite seqZ_0_7. cbn [map foldr].
  induction logs as [|l logs IH].
  - reflexivity.
  - rewrite !day_total_cons. cbn [List.filter].
    destruct ((T - 6 <=? dayKey tz (ts l)) && (dayKey tz (ts l) <=? T)) eqn:E;
      cbn [map foldr].
    + apply andb_true_iff in E. destruct E as [E1 E2].
      apply Z.leb_le in E1. apply Z.leb_le in E2.
      assert (Hd : dayKey tz (ts l) = T - 6 + 0 \/ dayKey tz (ts l) = T - 6 + 1 \/
                   dayKey tz (ts l) = T - 6 + 2 \/ dayKey tz (ts l) = T - 6 + 3 \/
                   dayKey tz (ts l) = T - 6 + 4 \/ dayKey tz (ts l) = T - 6 + 5 \/
                   dayKey tz (ts l) = T - 6 + 6) by lia.
      destruct Hd as [Hd|[Hd|[Hd|[Hd|[Hd|[Hd|Hd]]]]]]; rewrite Hd;
        repeat match goal with
        | |- context [(?a =? ?b)] =>
            first [ rewrite (proj2 (Z.eqb_eq a b)) by lia
                  | rewrite (proj2 (Z.eqb_neq a b)) by lia ]
        end; lia.
    + apply andb_false_iff in E.
      repeat match goal with
        | |- context [(?a =? ?b)] =>
            rewrite (proj2 (Z.eqb_neq a b)) by (destruct E as [E|E];
              [apply Z.leb_gt in E | apply Z.leb_gt in E]; lia)
        end; lia.
Qed.

(** X20.  In a zone of constant offset, the week total on display is the
    sum of the ledger entries whose day key is today's or one of the six
    before it. *)
Theorem weekTotal_window (now : Z) (logs : list LogEntry) (lim : num) :
  weekTotal (last7DaysSeries tz now logs lim) =
  foldr Z.add 0
    (map sugarG
       (List.filter
          (fun l => (todayKey tz now - 6 <=? dayKey tz (ts l)) &&
                    (dayKey tz (ts l) <=? todayKey tz now))
          logs)).
Proof.
  rewrite <- day_total_week, <- (last7DaysSeries_sugar tz now logs lim).
  unfold weekTotal. generalize (last7DaysSeries tz now logs lim). intros week.
  assert (G : forall acc, fold_left (fun a b => a + sugar b) week acc =
                          acc + foldr Z.add 0 (map sugar week)).
  { induction week as [|p week IH]; intros acc; cbn; [lia|]. rewrite IH. lia. }
  rewrite G. lia.
Qed.

(** X21.  In a zone of constant offset, the [d]-th point of the week
    chart, [d] from 0 to 6, stands on
    the key [6 - d] days before today's, carries the sum of the ledger
    entries of that day (0 when there is none) and the limit given, and is
    flagged exactly when that sum is above the limit. *)
Theorem last7DaysSeries_point (now : Z) (logs : list LogEntry) (lim : num)
    (d : nat) :
  (d < 7)%nat ->
  last7DaysSeries tz now logs lim !! d =
    Some {| day := todayKey tz now - 6 + Z.of_nat d;
            sugar := day_total tz (todayKey tz now - 6 + Z.of_nat d) logs;
            limit := lim;
            over := (of_Z (day_total tz (todayKey tz now - 6 + Z.of_nat d) logs)
                     >? lim)%num |}.
Proof.
  intros Hd. unfold last7DaysSeries. cbv zeta.
  rewrite list_lookup_fmap, lookup_seqZ_lt by lia. cbn [fmap option_fmap option_map].
  replace (addDays (addDays (startOfDay tz now) (-6)) (0 + Z.of_nat d))
    with (addDays (startOfDay tz now) (-6 + Z.of_nat d)) by (unfold addDays; lia).
  rewrite offset_key, rollupByDay_total.
  replace (todayKey tz now + (-6 + Z.of_nat d))
    with (todayKey tz now - 6 + Z.of_nat d) by lia.
  reflexivity.
Qed.

End DaysAndKeys.

Lemma last7DaysSeries_point_witness :
  last7DaysSeries 0 1704135600000 [] (of_Z 30) !! 6%nat =
    Some {| day := todayKey 0 1704135600000 - 6 + Z.of_nat 6;
            sugar := day_total 0 (todayKey 0 1704135600000 - 6 + Z.of_nat 6) [];
            limit := of_Z 30;
            over := (of_Z (day_total 0 (todayKey 0 1704135600000 - 6 + Z.of_nat 6) [])
                     >? of_Z 30)%num |}.
Proof. apply (last7DaysSeries_point 0 1704135600000 [] (of_Z 30) 6). lia. Defined.

(** ** Reading amounts *)

Lemma span_digits_all_digits (s : string) : all_digits (fst (span_digits s)) = true.
Proof.
  induction s as [|c r IH]; [reflexivity|]. cbn [span_digits].
  destruct (is_digit c) eqn:E; [|reflexivity].
  destruct (span_digits r) as [d t]. cbn [fst all_digits] in *. now rewrite E, IH.
Qed.

Lemma all_digits_app (a b : string) :
  all_digits a = true -> all_digits b = true -> all_digits (a ++ b)%string = true.
Proof.
  induction a as [|c a IH]; intros Ha Hb; [exact Hb|].
  cbn [all_digits] in Ha. apply andb_true_iff in Ha. destruct Ha as [Hc Ha].
  change (String c a ++ b)%string with (String c (a ++ b)%string).
  cbn [all_digits]. now rewrite Hc, IH.
Qed.

Lemma is_digit_value (c : ascii) :
  is_digit c = true -> 0 <= Z.of_N (N_of_ascii c) - 48.
Proof.
  unfold is_digit. cbv zeta. intros H. apply andb_true_iff in H.
  destruct H as [H _]. apply N.leb_le in H. lia.
Qed.

Lemma digits_value_nonneg (s : string) (acc : Z) :
  all_digits s = true -> 0 <= acc -> 0 <= digits_value acc s.
Proof.
  revert acc. induction s as [|c r IH]; intros acc Hs Hacc; [exact Hacc|].
  cbn [all_digits] in Hs. apply andb_true_iff in Hs. destruct Hs as [Hc Hr].
  cbn [digits_value]. apply IH; [exact Hr|].
  pose proof (is_digit_value c Hc). lia.
Qed.

Lemma round_Q_frac_nonneg (n : Z) (d : positive) : 0 <= n -> 0 <= round_Q (n # d).
Proof.
  intros H. apply round_Q_nonneg. unfold Qle. simpl. lia.
Qed.

(** [parseFloat] on digits and dots gives NaN or a number that is not
    negative. *)
Lemma parseFloat_digits_dots_nonneg (s : string) :
  parseFloat_digits_dots s = NaN \/
  exists q, parseFloat_digits_dots s = Fin q /\ (0 <= q)%Q.
Proof.
  unfold parseFloat_digits_dots.
  pose proof (span_digits_all_digits s) as Hi.
  destruct (span_digits s) as [i r]. cbn [fst] in Hi.
  assert (Hint : (if nonempty i then of_Z (digits_value 0 i) else NaN) = NaN \/
                 exists q, (if nonempty i then of_Z (digits_value 0 i) else NaN)
                           = Fin q /\ (0 <= q)%Q).
  { destruct (nonempty i); [right | now left].
    eexists. split; [reflexivity|].
    change 0%Q with (inject_Z 0). rewrite <- Zle_Qle.
    apply digits_value_nonneg; [exact Hi | lia]. }
  destruct r as [|c r']; [exact Hint|].
  destruct (Ascii.eqb_spec c "."%char) as [->|Hc].
  - pose proof (span_digits_all_digits r') as Hf.
    destruct (span_digits r') as [f t]. cbn [fst] in Hf.
    destruct (negb (nonempty i) && negb (nonempty f)); [now left | right].
    eexists. split; [reflexivity|]. unfold Qle. simpl.
    pose proof (digits_value_nonneg (i ++ f)%string 0
                  (all_digits_app i f Hi Hf) (Z.le_refl 0)). lia.
  - destruct c as [[] [] [] [] [] [] [] []]; try exact Hint; congruence.
Qed.

Lemma keep_digits_dots_idem (s : string) :
  keep_digits_dots (keep_digits_dots s) = keep_digits_dots s.
Proof.
  induction s as [|c r IH]; [reflexivity|]. cbn [keep_digits_dots].
  destruct (is_digit c || Ascii.eqb c ".") eqn:E; [|exact IH].
  cbn [keep_digits_dots]. now rewrite E, IH.
Qed.

(** The amount read is a whole number that is not negative. *)
Lemma parseSugar_of_Z (s : string) :
  exists z : Z, parseSugar s = of_Z z /\ 0 <= z.
Proof.
  unfold parseSugar. cbv zeta.
  destruct (parseFloat_digits_dots_nonneg (keep_digits_dots s))
    as [-> | (q & -> & Hq)].
  - exists 0. split; [reflexivity | lia].
  - cbn [isNaN Math_round]. exists (round_Q q). split; [reflexivity|].
    now apply round_Q_nonneg.
Qed.

(** X22.  Whatever is typed into the amount field, [parseSugar] returns a
    whole number of grams that is not negative, never NaN; and it sees only
    the digits and dots of the text. *)
Theorem parseSugar_whole (s : string) :
  (exists z : Z, parseSugar s = of_Z z /\ 0 <= z) /\
  parseSugar (keep_digits_dots s) = parseSugar s.
Proof.
  split; [apply parseSugar_of_Z|].
  unfold parseSugar. cbv zeta. now rewrite keep_digits_dots_idem.
Qed.

(** ** The ledger *)

Section Ledger.

Variable tz : Z.

Lemma grams_of_of_Z (z : Z) : grams_of (of_Z z) = z.
Proof. apply Qfloor_Z. Qed.




(** X24.  Removing by its identifier the entry that [addLog] has just
    made gives back the ledger as it was, provided no entry carried that
    identifier before. *)
Theorem removeLog_addLog (uid : string) (now : Z) (newItem newSugar : string)
    (logs : list LogEntry) :
  (forall l, In l logs -> id l <> uid) ->
  removeLog uid (addLog uid now newItem newSugar logs) = logs.
Proof.
  intros Hfresh.
  assert (Hrm : removeLog uid logs = logs).
  { unfold removeLog. induction logs as [|l logs IH]; [reflexivity|].
    cbn [List.filter].
    assert (Hl : String.eqb (id l) uid = false).
    { apply String.eqb_neq. apply Hfresh. now left. }
    rewrite Hl. cbn [negb]. f_equal. apply IH.
    intros l' Hl'. apply Hfresh. now right. }
  unfold addLog. cbv zeta.
  destruct (negb (nonempty newItem) || _); [exact Hrm|].
  unfold removeLog. cbn [List.filter id]. rewrite String.eqb_refl. cbn [negb].
  exact Hrm.
Qed.

Lemma removeLog_addLog_witness :
  let e := {| id := "a1"; ts := 5; item := "Tea"; sugarG := 3;
              context := Some "Manual" |} in
  (forall l, In l [e] -> id l <> "b2") /\
  removeLog "b2" (addLog "b2" 9 "Soda" "39g" [e]) = [e].
Proof.
  cbv zeta. split.
  - intros l [<- | []]. discriminate.
  - apply (removeLog_addLog "b2" 9 "Soda" "39g").
    intros l [<- | []]. discriminate.
Defined.

End Ledger.

Section CsvRows.

Variable Date_parse : string -> num.
Variable now : Z.

Lemma keep_digits_dots_ok (s : string) : digits_dots (keep_digits_dots s) = true.
Proof.
  induction s as [|c r IH]; [reflexivity|]. cbn [keep_digits_dots].
  destruct (is_digit c || Ascii.eqb c ".") eqn:E; [|exact IH].
  cbn [digits_dots]. now rewrite E, IH.
Qed.

Lemma split_on_dot_all_digits (s : string) :
  digits_dots s = true ->
  Forall (fun p => all_digits p = true) (split_on "." s).
Proof.
  induction s as [|c r IH]; intros H.
  - repeat constructor.
  - cbn [digits_dots] in H. apply andb_true_iff in H. destruct H as [Hc Hr].
    specialize (IH Hr). cbn [split_on].
    destruct (Ascii.eqb c ".") eqn:E.
    + constructor; [reflexivity | exact IH].
    + rewrite orb_false_r in Hc.
      destruct (split_on "." r) as [|h t].
      * repeat constructor. cbn [all_digits]. now rewrite Hc.
      * inversion IH as [|? ? Hh Ht]; subst. constructor; [|exact Ht].
        cbn [all_digits]. now rewrite Hc, Hh.
Qed.

(** [Number] on what is left of a cell gives NaN or a number that is not
    negative. *)
Lemma Number_of_kept_nonneg (s : string) :
  Number_of_digits_dots (keep_digits_dots s) = NaN \/
  exists q, Number_of_digits_dots (keep_digits_dots s) = Fin q /\ (0 <= q)%Q.
Proof.
  unfold Number_of_digits_dots.
  pose proof (split_on_dot_all_digits _ (keep_digits_dots_ok s)) as HF.
  destruct (split_on "." (keep_digits_dots s)) as [|i [|f [|x more]]];
    [now left| | |now left].
  - right. eexists. split; [reflexivity|].
    inversion HF as [|? ? Hi _]; subst.
    change 0%Q with (inject_Z 0). rewrite <- Zle_Qle.
    apply digits_value_nonneg; [exact Hi | lia].
  - destruct (negb (nonempty i) && negb (nonempty f)); [now left | right].
    eexists. split; [reflexivity|].
    inversion HF as [|? ? Hi HF']; subst. inversion HF' as [|? ? Hf _]; subst.
    unfold Qle. simpl.
    pose proof (digits_value_nonneg (i ++ f)%string 0
                  (all_digits_app i f Hi Hf) (Z.le_refl 0)). lia.
Qed.

(** What a row is made of. *)
Lemma parseLine_Some_parts (line : string) (r : Csv.Row) :
  Csv.parseLine Date_parse now line = Some r ->
  exists (cell : string) (q : Q) (t : num),
    nonempty cell = true /\ Csv.item r = trim cell /\
    Csv.sugarG r = of_Z (round_Q q) /\ (0 <= q)%Q /\
    Csv.ts r = (if isNaN t then of_Z now else t).
Proof.
  unfold Csv.parseLine. cbv zeta.
  destruct (split_on ","%char line) as [|c0 [|c1 [|c2 more]]];
    try discriminate.
  - destruct (nonempty c0) eqn:E1; [|discriminate].
    destruct (Number_of_kept_nonneg c1) as [E | (q & E & Hq)]; rewrite E;
      [discriminate|].
    destruct (truthy (Fin q)); [|discriminate].
    cbn [negb orb]. intros [= <-]. cbn [Csv.item Csv.sugarG Csv.ts Math_round].
    exists c0, q, (of_Z now).
    split; [exact E1|]. split; [reflexivity|]. split; [reflexivity|].
    split; [exact Hq | reflexivity].
  - destruct (nonempty c1) eqn:E1; [|discriminate].
    destruct (Number_of_kept_nonneg c2) as [E | (q & E & Hq)]; rewrite E;
      [discriminate|].
    destruct (truthy (Fin q)); [|discriminate].
    cbn [negb orb]. intros [= <-]. cbn [Csv.item Csv.sugarG Csv.ts Math_round].
    exists c1, q, (if nonempty c0 then Date_parse c0 else of_Z now).
    split; [exact E1|]. split; [reflexivity|]. split; [reflexivity|].
    split; [exact Hq | reflexivity].
Qed.

Lemma parseCsv_In (text : string) (r : Csv.Row) :
  In r (Csv.parseCsv Date_parse now text) ->
  exists line, Csv.parseLine Date_parse now line = Some r.
Proof.
  unfold Csv.parseCsv. cbv zeta.
  destruct (List.filter _ (split_lines text)) as [|first rest]; [intros []|].
  intros H. apply list_elem_of_In, list_elem_of_omap in H.
  destruct H as (line & _ & Hl). eauto.
Qed.

Lemma trimEnd_idem (s : string) : trimEnd (trimEnd s) = trimEnd s.
Proof.
  induction s as [|c r IH]; [reflexivity|]. cbn [trimEnd].
  destruct (trimEnd r) as [|c' r'] eqn:E.
  - destruct (is_space c) eqn:Ec; [reflexivity|]. cbn [trimEnd]. now rewrite Ec.
  - cbn [trimEnd]. cbn [trimEnd] in IH. rewrite IH. reflexivity.
Qed.

Lemma trimStart_head (c : ascii) (r : string) :
  is_space c = false -> trimStart (String c r) = String c r.
Proof. intros H. cbn [trimStart]. now rewrite H. Qed.

Lemma trimStart_shape (s : string) :
  trimStart s = EmptyString \/
  exists c r, trimStart s = String c r /\ is_space c = false.
Proof.
  induction s as [|c r IH]; [now left|]. cbn [trimStart].
  destruct (is_space c) eqn:E; [exact IH|]. right. eauto.
Qed.

Lemma trimEnd_keeps_head (c : ascii) (r : string) :
  is_space c = false -> exists r', trimEnd (String c r) = String c r'.
Proof.
  intros H. cbn [trimEnd]. destruct (trimEnd r); [rewrite H|]; eauto.
Qed.

(** Trimming twice is trimming once. *)
Lemma trim_idem (s : string) : trim (trim s) = trim s.
Proof.
  unfold trim. destruct (trimStart_shape s) as [-> | (c & r & -> & Hc)].
  - reflexivity.
  - destruct (trimEnd_keeps_head c r Hc) as (r' & E). rewrite E.
    rewrite (trimStart_head c r' Hc), <- E. apply trimEnd_idem.
Qed.

(** X25.  Every row that [parseCsv] returns has an instant that is not
    NaN, a label without white space around it, and a whole amount that is
    not negative. *)
Theorem parseCsv_rows (text : string) (r : Csv.Row) :
  In r (Csv.parseCsv Date_parse now text) ->
  isNaN (Csv.ts r) = false /\
  trim (Csv.item r) = Csv.item r /\
  exists z : Z, Csv.sugarG r = of_Z z /\ 0 <= z.
Proof.
  intros Hin. destruct (parseCsv_In text r Hin) as (line & Hl).
  destruct (parseLine_Some_parts line r Hl) as (cell & q & t & _ & Hi & Hs & Hq & Ht).
  split; [|split].
  - rewrite Ht. destruct (isNaN t) eqn:E; [reflexivity | exact E].
  - rewrite Hi. apply trim_idem.
  - exists (round_Q q). split; [exact Hs|]. now apply round_Q_nonneg.
Qed.

End CsvRows.

Lemma parseCsv_rows_witness :
  let r := {| Csv.ts := of_Z 7; Csv.item := "Soda"; Csv.sugarG := of_Z 39 |} in
  In r (Csv.parseCsv (fun _ => NaN) 7 "Soda,39g") /\
  isNaN (Csv.ts r) = false /\
  trim (Csv.item r) = Csv.item r /\
  exists z : Z, Csv.sugarG r = of_Z z /\ 0 <= z.
Proof.
  cbv zeta. split; [left; reflexivity|].
  apply (parseCsv_rows (fun _ => NaN) 7 "Soda,39g"). left. reflexivity.
Defined.

(** ** What the ledger always holds *)

Lemma Forall_imap {A B} (P : B -> Prop) (f : nat -> A -> B) (l : list A) :
  (forall i x, In x l -> P (f i x)) -> Forall P (imap f l).
Proof.
  revert f. induction l as [|x l IH]; intros f H; cbn [imap]; constructor.
  - apply H. now left.
  - apply IH. intros i y Hy. apply H. now right.
Qed.

Lemma Math_round_of_Z (z : Z) : Math_round (of_Z z) = of_Z z.
Proof. unfold of_Z. cbn [Math_round]. unfold of_Z. now rewrite round_Q_Z. Qed.

Lemma ledger_ok_addLog (uid : string) (now : Z) (newItem newSugar : string)
    (logs : list LogEntry) :
  ledger_ok logs -> ledger_ok (addLog uid now newItem newSugar logs).
Proof.
  intros Hok. unfold addLog. cbv zeta.
  destruct (parseSugar_of_Z newSugar) as (g & Hg & Hg0). rewrite Hg.
  destruct (nonempty newItem) eqn:Ei; cbn [negb orb]; [|exact Hok].
  destruct (of_Z g <=? of_Z 0)%num eqn:Eg; [exact Hok|].
  constructor; [|exact Hok]. cbn [item sugarG]. split; [exact Ei|].
  rewrite grams_of_of_Z.
  apply not_true_iff_false in Eg. rewrite le_of_Z in Eg. lia.
Qed.

Lemma ledger_ok_presets :
  Forall (fun p : string * Z => nonempty (fst p) = true /\ 1 <= snd p) PRESETS.
Proof. unfold PRESETS. repeat constructor; cbn; lia. Qed.

Lemma ledger_ok_addLogs (uid : nat -> string) (Date_parse : string -> num)
    (now : Z) (text : string) (logs : list LogEntry) :
  ledger_ok logs ->
  ledger_ok (addLogs uid now (Csv.parseCsv Date_parse now text) logs).
Proof.
  intros Hok. unfold addLogs. cbv zeta. apply Forall_app. split; [|exact Hok].
  apply Forall_imap. intros i r Hr. apply filter_In in Hr. destruct Hr as [Hr Hk].
  cbn [item sugarG].
  unfold Csv.addLogs_keeps in Hk. apply andb_true_iff in Hk.
  destruct Hk as [Hi Hg]. split; [exact Hi|].
  destruct (parseCsv_In Date_parse now text r Hr) as (line & Hl).
  destruct (parseLine_Some_parts Date_parse now line r Hl)
    as (cell & q & t & _ & _ & Hs & _ & _).
  rewrite Hs in *. rewrite Math_round_of_Z, grams_of_of_Z.
  unfold gt, of_Z in Hg. cbn [lt] in Hg. apply Qlt_bool_iff in Hg.
  rewrite <- Zlt_Qlt in Hg. lia.
Qed.

Lemma ledger_ok_removeLog (ident : string) (logs : list LogEntry) :
  ledger_ok logs -> ledger_ok (removeLog ident logs).
Proof.
  intros Hok. unfold ledger_ok, removeLog in *. rewrite Forall_forall in *.
  intros l Hl. apply list_elem_of_In, filter_In in Hl. destruct Hl as [Hl _].
  apply Hok. now apply list_elem_of_In.
Qed.

(** X26.  Whatever the user does, in whatever order (adding by hand with
    any text, tapping a preset, importing any text as CSV, removing by
    identifier), every entry of the ledger has a label that is not empty
    and an amount of at least 1 g. *)
Theorem ledger_always_ok (ops : list LedgerOp) :
  ledger_ok (fold_left apply_op ops []).
Proof.
  assert (G : forall logs, ledger_ok logs -> ledger_ok (fold_left apply_op ops logs)).
  { induction ops as [|op ops IH]; intros logs Hok; [exact Hok|].
    cbn [fold_left]. apply IH. destruct op; cbn [apply_op].
    - now apply ledger_ok_addLog.
    - destruct (PRESETS !! preset) as [[label grams]|] eqn:E; [|exact Hok].
      constructor; [|exact Hok]. cbn [item sugarG].
      pose proof ledger_ok_presets as HP. rewrite Forall_forall in HP.
      apply (HP (label, grams)). eapply list_elem_of_lookup_2. exact E.
    - now apply ledger_ok_addLogs.
    - now apply ledger_ok_removeLog. }
  apply G. constructor.
Qed.

(** ** The header line of an import *)

Lemma split_lines_one (s : string) :
  (forall c, In c (list_ascii_of_string s) -> c <> "010"%char) ->
  split_lines s = [s].
Proof.
  induction s as [|c r IH]; intros H; [reflexivity|].
  assert (Hc : c <> "010"%char) by (apply H; now left).
  assert (Hr : split_lines r = [r]) by (apply IH; intros c' Hc'; apply H; now right).
  destruct r as [|c' r'].
  - destruct c as [[] [] [] [] [] [] [] []]; try reflexivity; congruence.
  - assert (Hc' : c' <> "010"%char) by (apply H; right; now left).
    destruct (Ascii.eqb_spec c "013"%char) as [->|Hn].
    + destruct c' as [[] [] [] [] [] [] [] []];
        try (change (split_lines (String "013" (String ?x r')))
               with (match split_lines (String x r') with
                     | h :: t => String "013" h :: t
                     | [] => [String "013" EmptyString]
                     end); rewrite Hr; reflexivity);
        congruence.
    + destruct c as [[] [] [] [] [] [] [] []];
        try (cbn [split_lines]; cbn [split_lines] in Hr; rewrite Hr; reflexivity);
        congruence.
Qed.

(** X27.  A text of a single line that names "date", "item" or "sugar", in
    any mix of upper and lower case, is taken for a header and gives no
    row, even when the line is a record such as "Sugar cookie,12". *)
Theorem parseCsv_lone_header (Date_parse : string -> num) (now : Z)
    (text : string) :
  (forall c, In c (list_ascii_of_string text) -> c <> "010"%char) ->
  test_any ["date"; "item"; "sugar"] (toLowerCase text) = true ->
  Csv.parseCsv Date_parse now text = [].
Proof.
  intros Hnl Hh. unfold Csv.parseCsv. cbv zeta.
  rewrite (split_lines_one text Hnl). cbn [List.filter].
  destruct (negb (String.length (trim text) =? 0)%nat); [|reflexivity].
  now rewrite Hh.
Qed.

Lemma parseCsv_lone_header_witness :
  Csv.parseCsv (fun _ => NaN) 0 "Sugar cookie,12" = [].
Proof.
  apply (parseCsv_lone_header (fun _ => NaN) 0 "Sugar cookie,12").
  - intros c Hc. cbn in Hc.
    repeat (destruct Hc as [<- | Hc]; [discriminate|]). destruct Hc.
  - reflexivity.
Defined.

(** ** Figures on display *)

(** X28.  For a finite limit the alert that the limit is reached shows
    exactly when the "Remaining" figure is 0. *)
Theorem limitReached_iff_nothing_remains (lim : Q) (todaySugar : Z) :
  limitReached (Fin lim) todaySugar = true <->
  remainingG (Fin lim) todaySugar ==n of_Z 0.
Proof.
  unfold limitReached, remainingG, ge, sub, of_Z. cbn [le neg add].
  rewrite Math_max_Fin, Qle_bool_iff.
  change (inject_Z 0) with 0%Q.
  destruct (Qle_bool 0 (lim + - inject_Z todaySugar)) eqn:E;
    [apply Qle_bool_iff in E | apply Qle_bool_false in E]; cbn [num_eq];
    split; intros H; lra.
Qed.

Lemma ProgressBar_pct_Fin (v m : Q) :
  ~ (m == 0)%Q ->
  ProgressBar_pct (Fin v) (Fin m) =
    of_Z (Z.min 100 (round_Q (v / m * 100))).
Proof.
  intros Hm. unfold ProgressBar_pct. cbn [div of_Z].
  assert (E : Qeq_bool m 0 = false) by (now apply Qeq_bool_false).
  rewrite E. cbn [mul]. unfold of_Z. cbn [Math_round]. unfold of_Z.
  rewrite Math_min_Fin.
  change (inject_Z 100) with 100%Q.
  destruct (Qle_bool _ _) eqn:E1.
  - apply Qle_bool_iff in E1. change 100%Q with (inject_Z 100) in E1 at 1.
    rewrite <- Zle_Qle in E1. now rewrite Z.min_l.
  - apply Qle_bool_false in E1. change 100%Q with (inject_Z 100) in E1 at 2.
    rewrite <- Zlt_Qlt in E1. rewrite Z.min_r by lia. reflexivity.
Qed.

(** X29.  For a limit above zero the progress bar is red exactly from
    99.5% of the limit on, and green exactly below 79.5% of it. *)
Theorem ProgressBar_thresholds (v m : Q) :
  (0 < m)%Q ->
  (ProgressBar_color (ProgressBar_pct (Fin v) (Fin m)) = bg_red <->
   (199 * m <= 200 * v)%Q) /\
  (ProgressBar_color (ProgressBar_pct (Fin v) (Fin m)) = bg_green <->
   (200 * v < 159 * m)%Q).
Proof.
  intros Hm. rewrite ProgressBar_pct_Fin by lra.
  set (x := (v / m * 100)%Q).
  assert (Hx : (x * m == 100 * v)%Q) by (unfold x; field; lra).
  pose proof (Qfloor_le (x + (1 # 2))) as F1.
  pose proof (Qlt_floor (x + (1 # 2))) as F2.
  rewrite inject_Z_plus in F2. change (inject_Z 1) with 1%Q in F2.
  unfold round_Q. set (z := Qfloor (x + (1 # 2))) in *.
  unfold ProgressBar_color, of_Z. cbn [lt].
  assert (L80 : Qlt_bool (inject_Z (Z.min 100 z)) (inject_Z 80) = (z <? 80)%Z).
  { apply eq_true_iff_eq. rewrite Qlt_bool_iff, <- Zlt_Qlt, Z.ltb_lt. lia. }
  assert (L100 : Qlt_bool (inject_Z (Z.min 100 z)) (inject_Z 100) = (z <? 100)%Z).
  { apply eq_true_iff_eq. rewrite Qlt_bool_iff, <- Zlt_Qlt, Z.ltb_lt. lia. }
  rewrite L80, L100.
  assert (R : (100 <= z)%Z <-> (199 * m <= 200 * v)%Q).
  { split.
    - intros Hz. rewrite Zle_Qle in Hz. change (inject_Z 100) with 100%Q in Hz.
      assert (Hx2 : (199 # 2 <= x)%Q) by lra. nra.
    - intros Hv. assert (Hx2 : (199 # 2 <= x)%Q) by nra.
      assert (Hz : (inject_Z 99 < inject_Z z)%Q).
      { change (inject_Z 99) with 99%Q. lra. }
      rewrite <- Zlt_Qlt in Hz. lia. }
  assert (G : (z < 80)%Z <-> (200 * v < 159 * m)%Q).
  { split.
    - intros Hz. assert (Hz' : (z + 1 <= 80)%Z) by lia.
      rewrite Zle_Qle, inject_Z_plus in Hz'.
      change (inject_Z 80) with 80%Q in Hz'. change (inject_Z 1) with 1%Q in Hz'.
      assert (Hx2 : (x < 159 # 2)%Q) by lra. nra.
    - intros Hv. assert (Hx2 : (x < 159 # 2)%Q) by nra.
      assert (Hz : (inject_Z z < inject_Z 80)%Q).
      { change (inject_Z 80) with 80%Q. lra. }
      now rewrite <- Zlt_Qlt in Hz. }
  split.
  - rewrite <- R. destruct (z <? 80)%Z eqn:E1; [apply Z.ltb_lt in E1|apply Z.ltb_ge in E1].
    + split; [discriminate | lia].
    + destruct (z <? 100)%Z eqn:E2; [apply Z.ltb_lt in E2|apply Z.ltb_ge in E2].
      * split; [discriminate | lia].
      * split; [intros _; exact E2 | reflexivity].
  - rewrite <- G. destruct (z <? 80)%Z eqn:E1; [apply Z.ltb_lt in E1|apply Z.ltb_ge in E1].
    + split; [intros _; exact E1 | reflexivity].
    + destruct (z <? 100)%Z; split; try discriminate; lia.
Qed.

Lemma ProgressBar_thresholds_witness :
  (ProgressBar_color (ProgressBar_pct (Fin 24) (Fin 30)) = bg_red <->
   (199 * 30 <= 200 * 24)%Q) /\
  (ProgressBar_color (ProgressBar_pct (Fin 24) (Fin 30)) = bg_green <->
   (200 * 24 < 159 * 30)%Q).
Proof. apply (ProgressBar_thresholds 24 30). unfold Qlt. simpl. lia. Defined.



(** * Zones that change their offset *)

(** ** At a zone that never changes, the zoned definitions are those of the
    section on dates *)

Section FixedOffset.

Variable tz : Z.

Lemma fixed_LocalTZA (t : Z) (isUTC : bool) :
  Zoned.LocalTZA (fixed_offset tz) t isUTC = tz.
Proof.
  unfold Zoned.LocalTZA, fixed_offset. cbn [z_before z_after z_switch].
  destruct isUTC; case_match; reflexivity.
Qed.

Lemma fixed_setHours (t h m s ms : Z) :
  Zoned.setHours (fixed_offset tz) t h m s ms = setHours tz t h m s ms.
Proof.
  unfold Zoned.setHours, Zoned.UTC, Zoned.LocalTime, setHours.
  now rewrite !fixed_LocalTZA.
Qed.

Lemma fixed_addDays (d days : Z) :
  Zoned.addDays (fixed_offset tz) d days = addDays d days.
Proof.
  unfold Zoned.addDays, Zoned.UTC, Zoned.LocalTime, addDays.
  rewrite !fixed_LocalTZA. lia.
Qed.

Lemma fixed_dayKey (t : Z) : Zoned.dayKey (fixed_offset tz) t = dayKey tz t.
Proof. unfold Zoned.dayKey, dayKey. now rewrite fixed_setHours. Qed.

Lemma fixed_todayKey (now : Z) :
  Zoned.todayKey (fixed_offset tz) now = todayKey tz now.
Proof.
  unfold Zoned.todayKey, Zoned.startOfDay, todayKey, startOfDay.
  now rewrite fixed_setHours.
Qed.

Lemma fixed_rollupByDay (logs : list LogEntry) :
  Zoned.rollupByDay (fixed_offset tz) logs = rollupByDay tz logs.
Proof.
  unfold Zoned.rollupByDay, rollupByDay. generalize (∅ : gmap Z Z).
  induction logs as [|l logs IH]; intros m; [reflexivity|].
  cbn [fold_left]. cbv zeta. rewrite fixed_dayKey. apply IH.
Qed.

Lemma fixed_todaySugar (now : Z) (logs : list LogEntry) :
  Zoned.todaySugar (fixed_offset tz) now logs = todaySugar tz now logs.
Proof.
  unfold Zoned.todaySugar, Zoned.startOfDay, todaySugar, startOfDay.
  now rewrite !fixed_setHours.
Qed.

Lemma fixed_last6Keys (now : Z) :
  Zoned.last6Keys (fixed_offset tz) now = last6Keys tz now.
Proof.
  unfold Zoned.last6Keys, Zoned.startOfDay, last6Keys, startOfDay.
  apply map_ext. intros i. now rewrite fixed_setHours, fixed_addDays.
Qed.

Lemma fixed_persistBonus (now : Z) (kcal : num) (h : gmap Z num) :
  Zoned.persistBonus (fixed_offset tz) now kcal h = persistBonus tz now kcal h.
Proof.
  unfold Zoned.persistBonus, Zoned.cappedBonusToday, Zoned.last6Bonuses,
    persistBonus, cappedBonusToday, last6Bonuses.
  now rewrite fixed_todayKey, fixed_last6Keys.
Qed.

Lemma fixed_run_days (es : list Tick) :
  Zoned.run_days (fixed_offset tz) es = run_days tz es.
Proof.
  unfold Zoned.run_days, run_days. generalize (∅ : gmap Z num).
  induction es as [|e es IH]; intros h; [reflexivity|].
  cbn [fold_left]. rewrite fixed_persistBonus. apply IH.
Qed.

End FixedOffset.

(** ** London, 1 April 2024 *)

(** Local midnight of Monday 1 April is 23:00 UTC of Sunday 31 March, so
    the key of the Monday is the key of the Sunday, 2024-03-31 (day 19813),
    and it stands first among the six keys the headroom is read from. *)
Lemma London_keys_collide :
  Zoned.dayKey Europe_London_2024 1711886400000 = 19813 /\
  Zoned.todayKey Europe_London_2024 1711962000000 = 19813 /\
  Zoned.last6Keys Europe_London_2024 1711962000000 =
    [19813; 19812; 19811; 19810; 19809; 19808].
Proof. repeat split; reflexivity. Qed.

(** C5 in London across the change to summer time.  The application is
    rendered at 12:00 UTC on each day from 25 March to 1 April 2024 with
    1000 kcal entered.  It grants 20 g on 25, 26 and 27 March and nothing
    until 31 March; on 1 April, whose key is again 2024-03-31, the headroom
    is read from the keys 03-26 to 03-31 and 20 g are granted and recorded
    under 03-31.  The records under the seven keys 03-25 to 03-31 then add
    up to 80 g. *)
Theorem weekly_window_exceeded_in_London :
  chronological London_week /\
  map (fun k => Zoned.run_days Europe_London_2024 London_week !! k)
      (seqZ 19807 7) =
    [Some (of_Z 20); Some (of_Z 20); Some (of_Z 20); Some (of_Z 0);
     Some (of_Z 0); Some (of_Z 0); Some (of_Z 20)] /\
  window_total (Zoned.run_days Europe_London_2024 London_week) 19813 = of_Z 80 /\
  (window_total (Zoned.run_days Europe_London_2024 London_week) 19813
   <=? of_Z 60)%num = false.
Proof.
  split; [unfold London_week, MS_PER_DAY; simpl; lia|].
  split; [vm_compute; reflexivity|].
  split; vm_compute; reflexivity.
Qed.

(** On that day persisting the bonus is not idempotent either: rendered
    again, the application reads its own record of 20 g as Sunday's, finds
    no headroom and records 0 g; rendered once more, it records 20 g. *)
Lemma persistBonus_flips_in_London :
  let now := 19814 * MS_PER_DAY + 43200000 in
  let h := Zoned.run_days Europe_London_2024 London_week in
  let h1 := Zoned.persistBonus Europe_London_2024 now (of_Z 1000) h in
  let h2 := Zoned.persistBonus Europe_London_2024 now (of_Z 1000) h1 in
  h !! 19813 = Some (of_Z 20) /\ h1 !! 19813 = Some (of_Z 0) /\
  h2 !! 19813 = Some (of_Z 20).
Proof. vm_compute. repeat split; reflexivity. Qed.

(** C8 in London on the day after the change to summer time.  On Monday
    1 April 2024 at 10:00, with 5 g logged on Sunday at 13:00 and 7 g logged
    now, the entries between local midnight and the end of the local day
    sum to 7 g, while [rollupByDay] holds 12 g under today's key: Sunday and
    Monday share the key 2024-03-31. *)
Theorem todaySugar_rollupByDay_differ_in_London :
  let now := 1711962000000 in
  Zoned.todaySugar Europe_London_2024 now London_ledger = 7 /\
  or0 (Zoned.rollupByDay Europe_London_2024 London_ledger
         !! Zoned.todayKey Europe_London_2024 now) = 12.
Proof. vm_compute. split; reflexivity. Qed.

(** ** A base below zero *)

